(** * Convex rules evaluator ([evaluate_convex.py]): model and properties

    The development embeds the four stages of [evaluate_convex.py]
    (document parser, rule extractor, configuration evaluator, reporter)
    as Rocq functions and states the properties of the specification
    about them.

    Conventions.
    - A Python [str] is a [list ascii] when it is scanned by a regular
      expression and a [string] when it is only compared or stored; the
      characters are the code points below 256.
    - Python's [re] is embedded as a backtracking matcher over regular
      expression syntax trees: alternatives in order, greedy and lazy
      repetition, capture groups and zero-width assertions.  Each pattern
      of the source is written once as a syntax tree next to its text.
    - Code that can raise returns a [result]. *)

From Stdlib Require Import String Ascii List Bool Arith ZArith Lia.
From Stdlib Require Import SpecFloat.
Import ListNotations.
Open Scope string_scope.
Open Scope list_scope.
Open Scope nat_scope.

Set Implicit Arguments.
Set Warnings "-register-all".

(* ================================================================== *)
(** ** Python's [re]: a backtracking matcher *)
(* ================================================================== *)

Module Re.

Section Engine.
Context {A : Type}.

(** Pattern syntax.  [Look] is a zero-width assertion on the text before
    (most recent character first) and after the current position; it
    carries [^] and [$]. *)
Inductive regex : Type :=
| Eps
| Chr (p : A -> bool)
| Seq (r1 r2 : regex)
| Alt (r1 r2 : regex)
| Star (r : regex)
| StarLazy (r : regex)
| Group (n : nat) (r : regex)
| Look (a : list A -> list A -> bool).

Record mstate : Type := MState
  { seen : list A;                    (* consumed text, reversed *)
    rest : list A;                    (* text still to read      *)
    groups : list (nat * list A) }.   (* most recent binding first *)

Definition cont := mstate -> option mstate.

Definition progress (st st' : mstate) : bool :=
  length (rest st') <? length (rest st).

(** Greedy repetition: one more iteration is tried before leaving the
    loop.  An iteration that consumes nothing is abandoned, as in [re];
    [n] bounds the number of iterations by the length of the text. *)
Fixpoint star_iter (body : mstate -> cont -> option mstate)
         (n : nat) (st : mstate) (k : cont) : option mstate :=
  match n with
  | O => k st
  | S n' =>
      match body st (fun st' =>
              if progress st st' then star_iter body n' st' k else None) with
      | Some res => Some res
      | None => k st
      end
  end.

(** Lazy repetition: leaving the loop is tried first. *)
Fixpoint lazy_iter (body : mstate -> cont -> option mstate)
         (n : nat) (st : mstate) (k : cont) : option mstate :=
  match n with
  | O => k st
  | S n' =>
      match k st with
      | Some res => Some res
      | None =>
          body st (fun st' =>
            if progress st st' then lazy_iter body n' st' k else None)
      end
  end.

Definition consumed (st st' : mstate) : list A :=
  firstn (length (rest st) - length (rest st')) (rest st).

Fixpoint m (r : regex) (st : mstate) (k : cont) : option mstate :=
  match r with
  | Eps => k st
  | Chr p =>
      match rest st with
      | c :: tl =>
          if p c then k (MState (c :: seen st) tl (groups st)) else None
      | [] => None
      end
  | Seq r1 r2 => m r1 st (fun st' => m r2 st' k)
  | Alt r1 r2 =>
      match m r1 st k with
      | Some res => Some res
      | None => m r2 st k
      end
  | Star r1 => star_iter (m r1) (length (rest st)) st k
  | StarLazy r1 => lazy_iter (m r1) (length (rest st)) st k
  | Group n r1 =>
      m r1 st (fun st' =>
        k (MState (seen st') (rest st')
                  ((n, consumed st st') :: groups st')))
  | Look a => if a (seen st) (rest st) then k st else None
  end.

Definition Plus (r : regex) : regex := Seq r (Star r).
Definition Opt (r : regex) : regex := Alt r Eps.

(** A match object: [group(0)], the numbered groups, and the text
    after the match. *)
Record mobj : Type := MObj
  { m_text : list A;
    m_groups : list (nat * list A);
    m_after : list A }.

Fixpoint lookup_group (n : nat) (g : list (nat * list A)) : option (list A) :=
  match g with
  | [] => None
  | (i, t) :: g' => if Nat.eqb i n then Some t else lookup_group n g'
  end.

(** [m.group(n)], with the empty text for a group that took no part. *)
Definition group (mo : mobj) (n : nat) : list A :=
  match lookup_group n (m_groups mo) with
  | Some t => t
  | None => []
  end.

(** [pattern.match] at the position that has [before] behind it. *)
Definition exec (r : regex) (before after : list A) : option mobj :=
  match m r (MState before after []) Some with
  | Some st' =>
      Some (MObj (firstn (length after - length (rest st')) after)
                 (groups st') (rest st'))
  | None => None
  end.

(** The scan shared by [re.sub], [re.split] and [re.finditer]: the text
    cut into the characters outside every match and the successive,
    non-overlapping, leftmost matches.  [skip] counts the characters of
    the current match that are still to be passed over. *)
Fixpoint scan_from (r : regex) (skip : nat) (before after : list A)
  : list (A + mobj) :=
  match after with
  | [] =>
      match skip with
      | O => match exec r before [] with
             | Some mo => [inr mo]
             | None => []
             end
      | S _ => []
      end
  | c :: tl =>
      match skip with
      | S n => scan_from r n (c :: before) tl
      | O =>
          match exec r before after with
          | Some mo =>
              match length (m_text mo) with
              | O => inr mo :: inl c :: scan_from r 0 (c :: before) tl
              | S n => inr mo :: scan_from r n (c :: before) tl
              end
          | None => inl c :: scan_from r 0 (c :: before) tl
          end
      end
  end.

Definition scan (r : regex) (s : list A) : list (A + mobj) :=
  scan_from r 0 [] s.

(** [re.sub(pattern, repl, s)] with a replacement computed from the
    match. *)
Definition sub (r : regex) (repl : mobj -> list A) (s : list A) : list A :=
  flat_map (fun x => match x with inl c => [c] | inr mo => repl mo end)
           (scan r s).

(** [re.split(pattern, s)] for a pattern with the single group 1: the
    pieces between the matches, with group 1 of each match between
    them. *)
Fixpoint split_pieces (cur : list A) (xs : list (A + mobj)) : list (list A) :=
  match xs with
  | [] => [rev cur]
  | inl c :: xs' => split_pieces (c :: cur) xs'
  | inr mo :: xs' => rev cur :: group mo 1 :: split_pieces [] xs'
  end.

Definition split (r : regex) (s : list A) : list (list A) :=
  split_pieces [] (scan r s).

(** [re.finditer(pattern, s)]. *)
Definition finditer (r : regex) (s : list A) : list mobj :=
  flat_map (fun x => match x with inl _ => [] | inr mo => [mo] end)
           (scan r s).

End Engine.

Arguments regex : clear implicits.
Arguments mstate : clear implicits.
Arguments mobj : clear implicits.

End Re.

Import Re.

(* ================================================================== *)
(** ** Characters and character classes *)
(* ================================================================== *)

Definition str := list ascii.

Definition s2l (s : string) : str := list_ascii_of_string s.

Definition is_char (c0 c : ascii) : bool := Ascii.eqb c c0.

Definition not_in (cs : list ascii) (c : ascii) : bool :=
  negb (existsb (Ascii.eqb c) cs).

Definition NL : ascii := ascii_of_nat 10.
Definition CR : ascii := ascii_of_nat 13.
Definition DQ : ascii := ascii_of_nat 34.
Definition BSL : ascii := ascii_of_nat 92.

(** [\s], and the characters [str.strip()] removes: the code points for
    which [str.isspace()] holds. *)
Definition py_isspace (c : ascii) : bool :=
  let n := nat_of_ascii c in
  ((9 <=? n) && (n <=? 13)) || ((28 <=? n) && (n <=? 32))
  || (n =? 133) || (n =? 160).

(** [.] without [re.DOTALL]. *)
Definition dot (c : ascii) : bool := negb (Ascii.eqb c NL).

Definition any_char (c : ascii) : bool := true.

Definition l2s (s : str) : string := string_of_list_ascii s.

(** Texts with double quotes and line ends are written with an apostrophe
    for the double quote and a tilde for the line feed. *)
Definition txt (s : string) : str :=
  map (fun c => if Ascii.eqb c "'" then DQ
                else if Ascii.eqb c "~" then NL else c) (s2l s).

(** The characters of a literal text, in sequence. *)
Fixpoint Lit (s : str) : regex ascii :=
  match s with
  | [] => Eps
  | c :: s' => Seq (Chr (is_char c)) (Lit s')
  end.

(** [^] without [re.MULTILINE]; [^] and [$] with it. *)
Definition Bos : regex ascii :=
  Look (fun before _ => match before with [] => true | _ => false end).

Definition Bol : regex ascii :=
  Look (fun before _ =>
          match before with [] => true | c :: _ => Ascii.eqb c NL end).

Definition Eol : regex ascii :=
  Look (fun _ after =>
          match after with [] => true | c :: _ => Ascii.eqb c NL end).

(** [\w] on the code points below 256: letters, digits, the numeric
    signs of Latin-1 and the underscore. *)
Definition py_isword (c : ascii) : bool :=
  let n := nat_of_ascii c in
  ((48 <=? n) && (n <=? 57)) || ((65 <=? n) && (n <=? 90))
  || ((97 <=? n) && (n <=? 122)) || (n =? 95)
  || (n =? 170) || (n =? 178) || (n =? 179) || (n =? 181) || (n =? 185)
  || (n =? 186) || ((188 <=? n) && (n <=? 190))
  || ((192 <=? n) && (n <=? 214)) || ((216 <=? n) && (n <=? 246))
  || (248 <=? n).

(* ================================================================== *)
(** ** Config evaluator, text stage: comments and trailing commas *)
(* ================================================================== *)

(** The text between string protection and restoration.  A placeholder
    [__STRING_<uuid4 hex>__] is one symbol [Ph n], [n] counting the draws
    of [uuid.uuid4()]: a drawn identifier occurs nowhere in the text it
    is inserted into.  Its characters are underscores, capitals and hex
    digits, so it belongs to every negated class of the two comment
    patterns and is none of their literal characters. *)
Inductive tok : Type :=
| Ch (c : ascii)
| Ph (n : nat).

Definition tok_is (c0 : ascii) (t : tok) : bool :=
  match t with
  | Ch c => Ascii.eqb c c0
  | Ph _ => false
  end.

Definition tok_not_in (cs : list ascii) (t : tok) : bool :=
  match t with
  | Ch c => not_in cs c
  | Ph _ => true
  end.

(** The quoted spans: [Q [^Q\\]* (?: \\. [^Q\\]* )* Q], written
    with spaces between its parts and [Q] for the double quote. *)
Definition string_re : regex ascii :=
  Seq (Chr (is_char DQ))
   (Seq (Star (Chr (not_in [DQ; BSL])))
    (Seq (Star (Seq (Chr (is_char BSL))
                (Seq (Chr dot) (Star (Chr (not_in [DQ; BSL]))))))
     (Chr (is_char DQ)))).

(** [/\*[^*]*\*+(?:[^/*][^*]*\*+)*/] *)
Definition block_comment_re : regex tok :=
  Seq (Chr (tok_is "/"))
   (Seq (Chr (tok_is "*"))
    (Seq (Star (Chr (tok_not_in ["*"%char])))
     (Seq (Plus (Chr (tok_is "*")))
      (Seq (Star (Seq (Chr (tok_not_in ["/"%char; "*"%char]))
                  (Seq (Star (Chr (tok_not_in ["*"%char])))
                       (Plus (Chr (tok_is "*"))))))
           (Chr (tok_is "/")))))).

(** [//[^\n\r]*] *)
Definition line_comment_re : regex tok :=
  Seq (Chr (tok_is "/"))
   (Seq (Chr (tok_is "/")) (Star (Chr (tok_not_in [NL; CR])))).

(** [,(\s*[}\]])] *)
Definition trailing_comma_re : regex ascii :=
  Seq (Chr (is_char ","))
      (Group 1 (Seq (Star (Chr py_isspace))
                    (Chr (fun c => is_char "}" c || is_char "]" c)))).

(** [string_placeholders]: placeholder to protected text, in insertion
    order. *)
Definition placeholders := list (nat * str).

(** [re.sub(string pattern, replace_string, content)]: every match takes
    the next placeholder and is recorded under it. *)
Fixpoint replace_strings (xs : list (ascii + mobj ascii)) (n : nat)
  : list tok * placeholders :=
  match xs with
  | [] => ([], [])
  | inl c :: xs' =>
      let '(content, table) := replace_strings xs' n in
      (Ch c :: content, table)
  | inr mo :: xs' =>
      let '(content, table) := replace_strings xs' (S n) in
      (Ph n :: content, (n, m_text mo) :: table)
  end.

Definition protect_strings (content : str) : list tok * placeholders :=
  replace_strings (scan string_re content) 0.

(** [content.replace(placeholder, original)] *)
Definition replace_placeholder (n : nat) (original : str) (content : list tok)
  : list tok :=
  flat_map (fun t => match t with
                     | Ph i => if Nat.eqb i n then map Ch original else [t]
                     | Ch _ => [t]
                     end) content.

Definition restore_strings (table : placeholders) (content : list tok)
  : list tok :=
  fold_left (fun c entry => replace_placeholder (fst entry) (snd entry) c)
            table content.

Definition remove_block_comments (content : list tok) : list tok :=
  sub block_comment_re (fun _ => []) content.

Definition remove_line_comments (content : list tok) : list tok :=
  sub line_comment_re (fun _ => []) content.

Section ConfigText.
(** The text of the [n]-th placeholder, [__STRING_<uuid4 hex>__]. *)
Variable placeholder_text : nat -> str.

Definition tok_text (t : tok) : str :=
  match t with
  | Ch c => [c]
  | Ph n => placeholder_text n
  end.

(** Lines 299-318 of [evaluate]: protect the strings, remove the block
    comments, then the line comments, restore the strings. *)
Definition strip_comments (content : str) : str :=
  let '(protected, table) := protect_strings content in
  let content := remove_block_comments protected in
  let content := remove_line_comments content in
  flat_map tok_text (restore_strings table content).

(** One pass of [re.sub(r',(\s*[}\]])', r'\1', content)]. *)
Definition strip_trailing_commas_once (content : str) : str :=
  sub trailing_comma_re (fun mo => group mo 1) content.

(** Lines 320-322: [for _ in range(3)]. *)
Definition strip_trailing_commas (content : str) : str :=
  strip_trailing_commas_once
    (strip_trailing_commas_once (strip_trailing_commas_once content)).

Definition clean_config_text (content : str) : str :=
  strip_trailing_commas (strip_comments content).
End ConfigText.


(* ================================================================== *)
(** ** Document parser, text stage *)
(* ================================================================== *)

(** [^---\n(.*?)\n---\n] with [re.DOTALL], used with [re.match]. *)
Definition frontmatter_re : regex ascii :=
  Seq Bos
   (Seq (Lit (s2l "---"))
    (Seq (Chr (is_char NL))
     (Seq (Group 1 (StarLazy (Chr any_char)))
      (Seq (Chr (is_char NL))
       (Seq (Lit (s2l "---")) (Chr (is_char NL))))))).

(** [( globs:\s* )( [^\nQ]+ )], written with spaces between its parts
    and [Q] for the double quote. *)
Definition globs_re : regex ascii :=
  Seq (Group 1 (Seq (Lit (s2l "globs:")) (Star (Chr py_isspace))))
      (Group 2 (Plus (Chr (not_in [NL; DQ])))).

(** [re.sub(globs pattern, r'\1Q\2Q', frontmatter_text)]. *)
Definition quote_globs (frontmatter_text : str) : str :=
  sub globs_re (fun mo => group mo 1 ++ [DQ] ++ group mo 2 ++ [DQ])
      frontmatter_text.

(** [^(#+\s+.*?)$] with [re.MULTILINE]. *)
Definition heading_re : regex ascii :=
  Seq Bol
   (Seq (Group 1 (Seq (Plus (Chr (is_char "#")))
                  (Seq (Plus (Chr py_isspace)) (StarLazy (Chr dot)))))
        Eol).

(** [^#+\s+], without [re.MULTILINE]. *)
Definition heading_marks_re : regex ascii :=
  Seq Bos (Seq (Plus (Chr (is_char "#"))) (Plus (Chr py_isspace))).

(** [```(\w+)?\n(.*?)```] with [re.DOTALL]. *)
Definition code_block_re : regex ascii :=
  Seq (Lit (s2l "```"))
   (Seq (Opt (Group 1 (Plus (Chr py_isword))))
    (Seq (Chr (is_char NL))
     (Seq (Group 2 (StarLazy (Chr any_char))) (Lit (s2l "```"))))).

(** [str.strip()]. *)
Fixpoint lstrip (s : str) : str :=
  match s with
  | c :: s' => if py_isspace c then lstrip s' else s
  | [] => []
  end.

Definition strip (s : str) : str := rev (lstrip (rev (lstrip s))).

(** A [dict] with [str] keys, in insertion order. *)
Definition dict (V : Type) := list (string * V).

Fixpoint dict_get {V : Type} (key : string) (d : dict V) : option V :=
  match d with
  | [] => None
  | (k, v) :: d' => if String.eqb k key then Some v else dict_get key d'
  end.

(** [d[key] = v]: the entry is overwritten where it is, or appended. *)
Fixpoint dict_set {V : Type} (key : string) (v : V) (d : dict V) : dict V :=
  match d with
  | [] => [(key, v)]
  | (k, v0) :: d' =>
      if String.eqb k key then (k, v) :: d' else (k, v0) :: dict_set key v d'
  end.

Definition dict_mem {V : Type} (key : string) (d : dict V) : bool :=
  match dict_get key d with
  | Some _ => true
  | None => false
  end.

(** [range(0, n, 2)]. *)
Fixpoint range_even (start count : nat) : list nat :=
  match count with
  | O => []
  | S count' => start :: range_even (S (S start)) count'
  end.

Definition range_step2 (n : nat) : list nat := range_even 0 (Nat.div2 (S n)).

(** Lines 100-109 of [MDCParser.parse]. *)
Definition section_step (sections : list str) (doc_sections : dict str)
           (i : nat) : dict str :=
  if S i <? length sections then
    let header := strip (nth (S i) sections []) in
    let body := if S (S i) <? length sections
                then nth (S (S i)) sections [] else [] in
    let section_name := sub heading_marks_re (fun _ => []) header in
    dict_set (l2s section_name) body doc_sections
  else doc_sections.

Definition parse_sections (content : str) : dict str :=
  let sections := split heading_re content in
  fold_left (section_step sections) (range_step2 (length sections)) [].

(** Lines 111-119: the fenced code blocks, [(language, code)]. *)
Definition parse_code_blocks (content : str) : list (string * string) :=
  map (fun mo =>
         (match lookup_group 1 (m_groups mo) with
          | Some ((_ :: _) as language) => l2s language
          | _ => "text"%string
          end,
          l2s (group mo 2)))
      (finditer code_block_re content).


(* ================================================================== *)
(** ** Values, exceptions and the operations of Python they go through *)
(* ================================================================== *)

(** What [json.loads] returns and what a rule compares with: [None],
    booleans, integers, floats by their IEEE-754 decomposition, strings,
    lists and dictionaries. *)
Inductive value : Type :=
| VNone
| VBool (b : bool)
| VInt (z : Z)
| VFloat (f : spec_float)
| VStr (s : string)
| VList (l : list value)
| VDict (d : dict value).

Inductive exn : Type :=
| FileNotFoundError (msg : string)
| JSONDecodeError (msg : string)
| YAMLError (msg : string)
| TypeError (msg : string)
| KeyError (msg : string)
| OtherError (name msg : string).

Inductive result (T : Type) : Type :=
| Ok (x : T)
| Raise (e : exn).

Arguments Ok {T} x.
Arguments Raise {T} e.

Definition bind {T U : Type} (r : result T) (f : T -> result U) : result U :=
  match r with
  | Ok x => f x
  | Raise e => Raise e
  end.

Notation "x <- r ;; k" := (bind r (fun x => k))
  (at level 61, r at next level, right associativity).

(** [str(e)]. *)
Definition exn_str (e : exn) : string :=
  match e with
  | FileNotFoundError msg | JSONDecodeError msg | YAMLError msg
  | TypeError msg | KeyError msg | OtherError _ msg => msg
  end.

(** Numbers compare by value across [bool], [int] and [float]. *)
Definition float_eq_int (f : spec_float) (z : Z) : bool :=
  match f with
  | S754_zero _ => Z.eqb z 0
  | S754_finite sg mant e =>
      let v := if sg then Z.neg mant else Z.pos mant in
      if (0 <=? e)%Z then Z.eqb z (v * 2 ^ e)%Z
      else Z.eqb v (z * 2 ^ (- e))%Z
  | S754_infinity _ | S754_nan => false
  end.

Definition int_of_bool (b : bool) : Z := if b then 1%Z else 0%Z.

(** [a == b]. *)
Fixpoint py_eq (a b : value) : bool :=
  match a, b with
  | VNone, VNone => true
  | VBool x, VBool y => Bool.eqb x y
  | VBool x, VInt y => Z.eqb (int_of_bool x) y
  | VInt x, VBool y => Z.eqb x (int_of_bool y)
  | VInt x, VInt y => Z.eqb x y
  | VBool x, VFloat y => float_eq_int y (int_of_bool x)
  | VFloat x, VBool y => float_eq_int x (int_of_bool y)
  | VInt x, VFloat y => float_eq_int y x
  | VFloat x, VInt y => float_eq_int x y
  | VFloat x, VFloat y => SFeqb x y
  | VStr x, VStr y => String.eqb x y
  | VList l, VList l' =>
      (fix list_eq (l l' : list value) : bool :=
         match l, l' with
         | [], [] => true
         | x :: xs, y :: ys => py_eq x y && list_eq xs ys
         | _, _ => false
         end) l l'
  | VDict d, VDict d' =>
      Nat.eqb (length d) (length d') &&
      (fix dict_le (d : dict value) : bool :=
         match d with
         | [] => true
         | (k, v) :: r =>
             match dict_get k d' with
             | Some v' => py_eq v v'
             | None => false
             end && dict_le r
         end) d
  | _, _ => false
  end.

(** [a != b]. *)
Definition py_ne (a b : value) : bool := negb (py_eq a b).

(** [x is not None]. *)
Definition is_not_none (v : value) : bool :=
  match v with
  | VNone => false
  | _ => true
  end.

(** [isinstance(v, dict)] and [isinstance(v, list)]. *)
Definition isinstance_dict (v : value) : bool :=
  match v with
  | VDict _ => true
  | _ => false
  end.

Definition isinstance_list (v : value) : bool :=
  match v with
  | VList _ => true
  | _ => false
  end.

Fixpoint starts_with (prefix s : str) : bool :=
  match prefix, s with
  | [], _ => true
  | p :: prefix', c :: s' => Ascii.eqb p c && starts_with prefix' s'
  | _ :: _, [] => false
  end.

(** [needle in hay] on two [str]. *)
Fixpoint contains (needle hay : str) : bool :=
  starts_with needle hay ||
  match hay with
  | [] => false
  | _ :: hay' => contains needle hay'
  end.

(** [key in container] for a [str] key: membership of a key in a
    dictionary, of an element in a list, of a substring in a string; a
    [TypeError] for anything else. *)
Definition py_in (key : string) (container : value) : result bool :=
  match container with
  | VDict d => Ok (dict_mem key d)
  | VList l => Ok (existsb (fun item => py_eq item (VStr key)) l)
  | VStr s => Ok (contains (s2l key) (s2l s))
  | VNone => Raise (TypeError "argument of type 'NoneType' is not iterable")
  | VBool _ => Raise (TypeError "argument of type 'bool' is not iterable")
  | VInt _ => Raise (TypeError "argument of type 'int' is not iterable")
  | VFloat _ => Raise (TypeError "argument of type 'float' is not iterable")
  end.

(** [container[key]] for a [str] key. *)
Definition py_getitem (container : value) (key : string) : result value :=
  match container with
  | VDict d =>
      match dict_get key d with
      | Some v => Ok v
      | None => Raise (KeyError key)
      end
  | VList _ => Raise (TypeError "list indices must be integers or slices, not str")
  | VStr _ => Raise (TypeError "string indices must be integers, not 'str'")
  | _ => Raise (TypeError "object is not subscriptable")
  end.

(** What the program takes from its environment: [str()] and
    [json.dumps] on values, [json.loads], [yaml.safe_load], the reading of
    a file, and the text of the [n]-th placeholder. *)
Record Env : Type := MkEnv
  { py_str : value -> string;
    json_dumps : value -> string;
    json_loads : str -> result value;
    yaml_safe_load : str -> result value;
    open_read : string -> result str;
    placeholder_text : nat -> str }.

(* ================================================================== *)
(** ** Data model *)
(* ================================================================== *)

Inductive Severity : Type := ERROR | WARNING | INFO | SUCCESS.

Inductive RuleType : Type := REQUIRED | FORBIDDEN | RECOMMENDED.

Definition Severity_eqb (a b : Severity) : bool :=
  match a, b with
  | ERROR, ERROR | WARNING, WARNING | INFO, INFO | SUCCESS, SUCCESS => true
  | _, _ => false
  end.

Record Rule : Type := MkRule
  { id : string;
    description : string;
    type : RuleType;
    severity : Severity;
    path : list string;
    expected_value : value;             (* default [None] *)
    forbidden_value : value;            (* default [None] *)
    validator : option (value -> bool); (* default [None] *)
    fix_suggestion : option string }.

Record Violation : Type := MkViolation
  { rule : Rule;
    config_file : string;
    actual_value : value;
    message : string;
    v_fix_suggestion : option string }.

Record MDCDocument : Type := MkDoc
  { frontmatter : value;
    sections : dict str;
    code_blocks : list (string * string) }.

(* ================================================================== *)
(** ** Document parser *)
(* ================================================================== *)

(** [text.split('\n')]. *)
Fixpoint split_lines_aux (cur : str) (s : str) : list str :=
  match s with
  | [] => [rev cur]
  | c :: s' =>
      if Ascii.eqb c NL then rev cur :: split_lines_aux [] s'
      else split_lines_aux (c :: cur) s'
  end.

Definition split_lines (s : str) : list str := split_lines_aux [] s.

(** [line.split(':', 1)] when [':' in line]. *)
Fixpoint split_colon (cur : str) (s : str) : option (str * str) :=
  match s with
  | [] => None
  | c :: s' =>
      if Ascii.eqb c ":" then Some (rev cur, s')
      else split_colon (c :: cur) s'
  end.

(** [s.strip(ch)]. *)
Fixpoint lstrip_char (ch : ascii) (s : str) : str :=
  match s with
  | c :: s' => if Ascii.eqb c ch then lstrip_char ch s' else s
  | [] => []
  end.

Definition strip_char (ch : ascii) (s : str) : str :=
  rev (lstrip_char ch (rev (lstrip_char ch s))).

(** Lines 93-97: the front matter read line by line when YAML fails. *)
Definition frontmatter_by_hand (frontmatter_text : str) : value :=
  VDict
    (fold_left
       (fun fm line =>
          match split_colon [] line with
          | Some (key, v) =>
              dict_set (l2s (strip key))
                       (VStr (l2s (strip_char DQ (strip v)))) fm
          | None => fm
          end)
       (split_lines frontmatter_text) []).

(** Lines 83-98: the front matter and the text after it. *)
Definition parse_frontmatter (env : Env) (content : str)
  : result (value * str) :=
  match exec frontmatter_re [] content with
  | Some mo =>
      let frontmatter_text := quote_globs (group mo 1) in
      match yaml_safe_load env frontmatter_text with
      | Ok fm => Ok (fm, m_after mo)
      | Raise (YAMLError _) => Ok (frontmatter_by_hand frontmatter_text, m_after mo)
      | Raise e => Raise e
      end
  | None => Ok (VDict [], content)
  end.

(** [MDCParser.parse]. *)
Definition parse (env : Env) (file_path : string) : result MDCDocument :=
  content <- open_read env file_path ;;
  fm <- parse_frontmatter env content ;;
  let '(front, content) := fm in
  Ok (MkDoc front (parse_sections content) (parse_code_blocks content)).

(* ================================================================== *)
(** ** Rule extractor *)
(* ================================================================== *)

(** [needle in str(v)]. *)
Definition in_str (env : Env) (needle : string) (v : value) : bool :=
  contains (s2l needle) (s2l (py_str env v)).

(** [v in [s1, ..., sn]]. *)
Definition one_of (choices : list string) (v : value) : bool :=
  existsb (fun c => py_eq (VStr c) v) choices.

Definition extract_typescript_rules (mdc_doc : MDCDocument) : list Rule :=
  match dict_get "Typescript guidelines" (sections mdc_doc) with
  | Some content =>
      (if contains (s2l "Be strict with types") content then
         [MkRule "ts-strict-types" "TypeScript strict mode should be enabled"
                 REQUIRED ERROR ["compilerOptions"; "strict"]
                 (VBool true) VNone None
                 (Some "Set 'strict': true in compilerOptions")]
       else []) ++
      (if contains (s2l "@types/node") content then
         [MkRule "ts-node-types" "Add @types/node when using Node.js modules"
                 RECOMMENDED INFO ["compilerOptions"; "types"]
                 VNone VNone
                 (Some (fun v => match v with
                                 | VList l =>
                                     existsb (fun item =>
                                                py_eq item (VStr "@types/node")) l
                                 | _ => true
                                 end))
                 (Some "Add '@types/node' to types array or install it")]
       else [])
  | None => []
  end.

(** [required_convex_opts]. *)
Definition required_convex_opts : list (string * value) :=
  [ ("target", VStr "ESNext");
    ("module", VStr "ESNext");
    ("forceConsistentCasingInFileNames", VBool true);
    ("isolatedModules", VBool true);
    ("noEmit", VBool true) ].

Definition extract_convex_typescript_rules (env : Env) : list Rule :=
  (map (fun kv =>
          let '(key, v) := kv in
          MkRule ("convex-required-" ++ key)%string
                 ("Convex requires " ++ key ++ " to be " ++ py_str env v)%string
                 REQUIRED ERROR ["compilerOptions"; key]
                 v VNone None
                 (Some ("Set '" ++ key ++ "': " ++ json_dumps env v
                        ++ " in compilerOptions")%string))
       required_convex_opts
   ++
   [ MkRule "convex-required-lib" "Convex requires ES2021 or DOM in lib array"
            REQUIRED WARNING ["compilerOptions"; "lib"]
            VNone VNone
            (Some (fun v =>
                     match v with
                     | VList l =>
                         existsb (fun lib => in_str env "ES2021" lib
                                             || in_str env "ES2020" lib
                                             || in_str env "ESNext" lib) l
                         || existsb (in_str env "DOM") l
                     | _ => false
                     end))
            (Some "Include 'ES2021' and 'DOM' in lib array");
     MkRule "convex-module-resolution"
            "Module resolution should be compatible with Convex bundler"
            RECOMMENDED WARNING ["compilerOptions"; "moduleResolution"]
            VNone VNone
            (Some (one_of ["Bundler"; "bundler"; "Node"; "node"]))
            (Some "Set 'moduleResolution': 'Bundler' for Convex compatibility");
     MkRule "convex-jsx" "JSX should be configured for React"
            RECOMMENDED INFO ["compilerOptions"; "jsx"]
            VNone VNone
            (Some (one_of ["react-jsx"; "react"; "preserve"]))
            (Some "Set 'jsx': 'react-jsx' for React 17+ support");
     MkRule "convex-exclude-generated"
            "Convex generated files should be excluded"
            RECOMMENDED INFO ["exclude"]
            VNone VNone
            (Some (fun v =>
                     match v with
                     | VList l => existsb (in_str env "_generated") l
                     | _ => false
                     end))
            (Some "Add './_generated' or 'convex/_generated' to exclude array")
   ]).

(** The option lines looked for in the example blocks are written with
    [DQ] for their double quotes. *)
Definition skip_lib_check_line : str :=
  [DQ] ++ s2l "skipLibCheck" ++ [DQ] ++ s2l ": true".

Definition synthetic_imports_line : str :=
  [DQ] ++ s2l "allowSyntheticDefaultImports" ++ [DQ] ++ s2l ": true".

Definition extract_example_config_rules (env : Env) (mdc_doc : MDCDocument)
  : list Rule :=
  flat_map
    (fun block =>
       let '(language, code) := block in
       if in_str env "tsconfig.json"
            (VDict [("language", VStr language); ("code", VStr code)])
       then
         (if contains skip_lib_check_line (s2l code) then
            [MkRule "example-skip-lib-check"
                    "Skip library type checking for faster builds"
                    RECOMMENDED INFO ["compilerOptions"; "skipLibCheck"]
                    (VBool true) VNone None
                    (Some "Set 'skipLibCheck': true for faster builds")]
          else []) ++
         (if contains synthetic_imports_line (s2l code) then
            [MkRule "example-synthetic-imports"
                    "Allow synthetic default imports"
                    RECOMMENDED INFO
                    ["compilerOptions"; "allowSyntheticDefaultImports"]
                    (VBool true) VNone None
                    (Some "Set 'allowSyntheticDefaultImports': true")]
          else [])
       else [])
    (code_blocks mdc_doc).

Definition extract_rules (env : Env) (mdc_doc : MDCDocument) : list Rule :=
  extract_typescript_rules mdc_doc
  ++ extract_convex_typescript_rules env
  ++ extract_example_config_rules env mdc_doc.

(* ================================================================== *)
(** ** Config evaluator *)
(* ================================================================== *)

(** Lines 361-367 of [_evaluate_rule]: the walk down [rule.path]. *)
Fixpoint navigate (v : value) (keys : list string) : result value :=
  match keys with
  | [] => Ok v
  | key :: keys' =>
      if isinstance_dict v then
        found <- py_in key v ;;
        if found then
          v' <- py_getitem v key ;;
          navigate v' keys'
        else Ok VNone
      else Ok VNone
  end.

Section Evaluator.
Variable env : Env.

Definition violation_of (r : Rule) (file : string) (v : value)
           (msg : string) : Violation :=
  MkViolation r file v msg (fix_suggestion r).

(** Lines 369-420 of [_evaluate_rule], on the value the walk found. *)
Definition check_rule (r : Rule) (v : value) (file : string)
  : option Violation :=
  match type r with
  | REQUIRED =>
      if is_not_none (expected_value r) then
        if py_ne v (expected_value r) then
          Some (violation_of r file v
                  (description r ++ ". Expected: "
                   ++ py_str env (expected_value r)
                   ++ ", Got: " ++ py_str env v)%string)
        else None
      else
        match validator r with
        | Some f =>
            if negb (f v) then
              Some (violation_of r file v
                      (description r ++ ". Validation failed for value: "
                       ++ py_str env v)%string)
            else None
        | None => None
        end
  | FORBIDDEN =>
      if py_eq v (forbidden_value r) then
        Some (violation_of r file v
                (description r ++ ". Forbidden value found: "
                 ++ py_str env v)%string)
      else None
  | RECOMMENDED =>
      if is_not_none (expected_value r) then
        if py_ne v (expected_value r) then
          Some (violation_of r file v
                  (description r ++ ". Recommended: "
                   ++ py_str env (expected_value r)
                   ++ ", Got: " ++ py_str env v)%string)
        else None
      else
        match validator r with
        | Some f =>
            if negb (f v) then
              Some (violation_of r file v
                      (description r
                       ++ ". Recommendation not followed for value: "
                       ++ py_str env v)%string)
            else None
        | None => None
        end
  end.

(** [_evaluate_rule]. *)
Definition evaluate_rule (r : Rule) (config : value) (file : string)
  : result (option Violation) :=
  v <- navigate config (path r) ;;
  Ok (check_rule r v file).

(** [rule.path and rule.path[0] == 'compilerOptions']. *)
Definition at_compiler_options (r : Rule) : bool :=
  match path r with
  | [] => false
  | key :: _ => String.eqb key "compilerOptions"
  end.

(** Line 340: ['references' in config and 'compilerOptions' not in
    config]. *)
Definition is_references_config (config : value) : result bool :=
  has_refs <- py_in "references" config ;;
  if has_refs then
    has_opts <- py_in "compilerOptions" config ;;
    Ok (negb has_opts)
  else Ok false.

(** Lines 345-354: the loop over [self.rules], with its two lists. *)
Fixpoint rules_loop (is_refs : bool) (config : value) (file : string)
         (rules : list Rule) (violations : list Violation)
         (passed_rules : list Rule)
  : result (list Violation * list Rule) :=
  match rules with
  | [] => Ok (violations, passed_rules)
  | r :: rules' =>
      if is_refs && at_compiler_options r then
        rules_loop is_refs config file rules' violations passed_rules
      else
        violation <- evaluate_rule r config file ;;
        match violation with
        | Some v =>
            rules_loop is_refs config file rules' (violations ++ [v])
                       passed_rules
        | None =>
            rules_loop is_refs config file rules' violations
                       (passed_rules ++ [r])
        end
  end.

(** Lines 339-356: [evaluate] after the configuration is parsed. *)
Definition evaluate_config (rules : list Rule) (config : value)
           (file : string) : result (list Violation * list Rule) :=
  is_refs <- is_references_config config ;;
  rules_loop is_refs config file rules [] [].

(** Lines 326-337: the violation that reports a failure to load. *)
Definition parse_error_violation (config_path : string) (e : exn)
  : Violation :=
  MkViolation
    (MkRule "config-parse-error" "Failed to parse configuration file"
            REQUIRED ERROR [] VNone VNone None None)
    config_path VNone
    ("Failed to parse " ++ config_path ++ ": " ++ exn_str e)%string
    None.

(** Lines 294-324: read, clean and parse the file. *)
Definition load_config (config_path : string) : result value :=
  content <- open_read env config_path ;;
  json_loads env (clean_config_text (placeholder_text env) content).

(** [TypeScriptConfigEvaluator.evaluate]: [except (json.JSONDecodeError,
    FileNotFoundError)] turns these two into the violation above, any
    other exception goes on to the caller. *)
Definition evaluate (rules : list Rule) (config_path : string)
  : result (list Violation * list Rule) :=
  match load_config config_path with
  | Ok config => evaluate_config rules config config_path
  | Raise (JSONDecodeError msg) =>
      Ok ([parse_error_violation config_path (JSONDecodeError msg)], [])
  | Raise (FileNotFoundError msg) =>
      Ok ([parse_error_violation config_path (FileNotFoundError msg)], [])
  | Raise e => Raise e
  end.

(* ---------------------------------------------------------------- *)
(** ** Reporter and the loop of [main] *)
(* ---------------------------------------------------------------- *)

(** [sum(1 for v in violations if v.rule.severity == s)]. *)
Definition count_severity (s : Severity) (violations : list Violation)
  : nat :=
  length (filter (fun v => Severity_eqb (severity (rule v)) s) violations).

(** [ConvexRulesReporter.report], lines 434-437 and 479-488: the counts
    and the verdict it returns.  What it prints is left out. *)
Definition report (file : string) (violations : list Violation)
           (passed_rules : list Rule) : bool :=
  let error_count := count_severity ERROR violations in
  let warning_count := count_severity WARNING violations in
  if 0 <? error_count then false
  else if 0 <? warning_count then true
  else true.

(** Lines 649-657 of [main]: every file is evaluated and reported. *)
Fixpoint main_loop (rules : list Rule) (config_files : list (string * string))
         (all_passed : bool) : result bool :=
  match config_files with
  | [] => Ok all_passed
  | (name, config_path) :: files' =>
      res <- evaluate rules config_path ;;
      let passed := report config_path (fst res) (snd res) in
      main_loop rules files' (if negb passed then false else all_passed)
  end.

(** Lines 664-669: [sys.exit(0)] or [sys.exit(1)]; an exception nobody
    caught ends the process with status 1. *)
Definition exit_code (r : result bool) : Z :=
  match r with
  | Ok true => 0%Z
  | Ok false => 1%Z
  | Raise _ => 1%Z
  end.

Definition main_evaluate (rules : list Rule)
           (config_files : list (string * string)) : Z :=
  exit_code (main_loop rules config_files true).

(** Lines 636-669: [main] once the rules are extracted; without any
    configuration file it exits with 1 before the loop. *)
Definition main_from_configs (rules : list Rule)
           (config_files : list (string * string)) : Z :=
  match config_files with
  | [] => 1%Z
  | _ :: _ => main_evaluate rules config_files
  end.
End Evaluator.

(* ================================================================== *)
(** ** Specification-side definitions *)
(* ================================================================== *)

(** The value at a path, when every key on the way is present in a
    nested mapping. *)
Fixpoint lookup_path (v : value) (keys : list string) : option value :=
  match keys with
  | [] => Some v
  | key :: keys' =>
      match v with
      | VDict d =>
          match dict_get key d with
          | Some v' => lookup_path v' keys'
          | None => None
          end
      | _ => None
      end
  end.

(** The resolved value of a path: the value found, [None] when absent. *)
Definition resolve (config : value) (keys : list string) : value :=
  match lookup_path config keys with
  | Some v => v
  | None => VNone
  end.

(** The rules the loop does not pass over. *)
Definition kept_rules (is_refs : bool) (rules : list Rule) : list Rule :=
  filter (fun r => negb (is_refs && at_compiler_options r)) rules.

Definition violates (env : Env) (config : value) (file : string) (r : Rule)
  : bool :=
  match check_rule env r (resolve config (path r)) file with
  | Some _ => true
  | None => false
  end.

Definition violations_of (env : Env) (config : value) (file : string)
           (rules : list Rule) : list Violation :=
  flat_map (fun r => match check_rule env r (resolve config (path r)) file with
                     | Some v => [v]
                     | None => []
                     end) rules.

(** A rule is satisfied by a configuration: a Required or Recommended
    rule with an expected value finds that value, one with a validator
    finds a value the validator accepts; a Forbidden rule does not find
    its forbidden value. *)
Definition rule_satisfied (config : value) (r : Rule) : Prop :=
  let v := resolve config (path r) in
  match type r with
  | REQUIRED | RECOMMENDED =>
      if is_not_none (expected_value r) then py_eq v (expected_value r) = true
      else match validator r with
           | Some f => f v = true
           | None => True
           end
  | FORBIDDEN => py_eq v (forbidden_value r) = false
  end.

(** The values on which [in] is defined. *)
Definition is_container (v : value) : bool :=
  match v with
  | VDict _ | VList _ | VStr _ => true
  | _ => false
  end.

(** The two exceptions [evaluate] catches. *)
Definition is_load_failure (e : exn) : bool :=
  match e with
  | JSONDecodeError _ | FileNotFoundError _ => true
  | _ => false
  end.

Definition has_error (violations : list Violation) : bool :=
  existsb (fun v => Severity_eqb (severity (rule v)) ERROR) violations.

(** An environment for examples: each file of [files] holds a text and
    the value [json.loads] gives for it once cleaned; [str()] and
    [json.dumps] are rendered for strings only. *)
Definition str_eqb (a b : str) : bool := String.eqb (l2s a) (l2s b).

Definition example_str (v : value) : string :=
  match v with
  | VStr s => s
  | VBool true => "True"
  | VBool false => "False"
  | VNone => "None"
  | _ => "?"
  end.

Definition example_env (files : list (string * (str * result value))) : Env :=
  MkEnv example_str example_str
        (fun text =>
           match find (fun f => str_eqb
                                  (clean_config_text (fun _ => []) (fst (snd f)))
                                  text) files with
           | Some f => snd (snd f)
           | None => Raise (JSONDecodeError "Expecting value")
           end)
        (fun _ => Raise (YAMLError "not read"))
        (fun p => match dict_get p files with
                  | Some f => Ok (fst f)
                  | None => Raise (FileNotFoundError "No such file or directory")
                  end)
        (fun _ => []).

(** Example configurations, each with the text of its file. *)
Definition good_config_text : str :=
  txt ("{'compilerOptions': {'target': 'ESNext', 'module': 'ESNext', "
       ++ "'forceConsistentCasingInFileNames': true, "
       ++ "'isolatedModules': true, 'noEmit': true, "
       ++ "'lib': ['ES2021', 'DOM'], 'moduleResolution': 'Bundler', "
       ++ "'jsx': 'react-jsx', 'strict': true}, "
       ++ "'exclude': ['./_generated']}")%string.

Definition good_config : value :=
  VDict [("compilerOptions",
          VDict [("target", VStr "ESNext"); ("module", VStr "ESNext");
                 ("forceConsistentCasingInFileNames", VBool true);
                 ("isolatedModules", VBool true); ("noEmit", VBool true);
                 ("lib", VList [VStr "ES2021"; VStr "DOM"]);
                 ("moduleResolution", VStr "Bundler");
                 ("jsx", VStr "react-jsx"); ("strict", VBool true)]);
         ("exclude", VList [VStr "./_generated"])].

(** The same without [lib] and [jsx]: a warning and an information. *)
Definition warned_config_text : str :=
  txt ("{'compilerOptions': {'target': 'ESNext', 'module': 'ESNext', "
       ++ "'forceConsistentCasingInFileNames': true, "
       ++ "'isolatedModules': true, 'noEmit': true, "
       ++ "'moduleResolution': 'Bundler', 'strict': true}, "
       ++ "'exclude': ['./_generated']}")%string.

Definition warned_config : value :=
  VDict [("compilerOptions",
          VDict [("target", VStr "ESNext"); ("module", VStr "ESNext");
                 ("forceConsistentCasingInFileNames", VBool true);
                 ("isolatedModules", VBool true); ("noEmit", VBool true);
                 ("moduleResolution", VStr "Bundler"); ("strict", VBool true)]);
         ("exclude", VList [VStr "./_generated"])].

Definition references_config_text : str :=
  txt "{'references': [{'path': './x'}]}".

Definition references_config : dict value :=
  [("references", VList [VDict [("path", VStr "./x")]])].

Definition example_files : list (string * (str * result value)) :=
  [ ("tsconfig.json", (references_config_text, Ok (VDict references_config)));
    ("tsconfig.app.json", (good_config_text, Ok good_config));
    ("tsconfig.node.json", (warned_config_text, Ok warned_config));
    ("tsconfig.build.json", (txt "5", Ok (VInt 5)));
    ("convex/tsconfig.json",
     (txt "{'compilerOptions': ", Raise (JSONDecodeError "Expecting value"))) ].

Definition example_doc : MDCDocument :=
  MkDoc (VDict [])
        [("Typescript guidelines",
          s2l "- Be strict with types, and add @types/node when needed")]
        [].

(* ================================================================== *)
(** ** Specification-side definitions for the text stage *)
(* ================================================================== *)

(** A character of a string literal that is neither its end nor an
    escape. *)
Definition plain (c : ascii) : bool := not_in [DQ; BSL] c.

(** The text after the closing quote of a string literal, read from
    behind its opening quote: an escape is a backslash and one character
    that is not a line feed. *)
Fixpoint str_tail (s : str) : option str :=
  match s with
  | [] => None
  | c :: s' =>
      if Ascii.eqb c DQ then Some s'
      else if Ascii.eqb c BSL then
             match s' with
             | [] => None
             | e :: s'' => if Ascii.eqb e NL then None else str_tail s''
             end
           else str_tail s'
  end.

(** Clean JSON text: string literals, each closed, and between them
    characters among which there is no slash (JSON has none outside its
    strings), hence no comment.  [inside] tells whether the reading is
    within a literal. *)
Fixpoint clean_json (inside : bool) (s : str) : bool :=
  match s with
  | [] => negb inside
  | c :: s' =>
      if inside then
        if Ascii.eqb c DQ then clean_json false s'
        else if Ascii.eqb c BSL then
               match s' with
               | [] => false
               | e :: s'' =>
                   if Ascii.eqb e NL then false else clean_json true s''
               end
             else clean_json true s'
      else
        if Ascii.eqb c DQ then clean_json true s'
        else if Ascii.eqb c "/" then false
             else clean_json false s'
  end.

(** The text a piece of a scan stands for. *)
Definition piece_text {A : Type} (x : A + mobj A) : list A :=
  match x with
  | inl c => [c]
  | inr mo => m_text mo
  end.

(** The text a symbol of the protected content stands for: a placeholder
    stands for the quoted span recorded under it. *)
Definition restore_text (placeholder_text : nat -> str) (table : placeholders)
           (t : tok) : str :=
  match t with
  | Ch c => [c]
  | Ph i =>
      match lookup_group i table with
      | Some original => original
      | None => placeholder_text i
      end
  end.

(** [l1] is [l2] with some of its elements left out. *)
Inductive subseq {A : Type} : list A -> list A -> Prop :=
| subseq_nil : subseq [] []
| subseq_skip : forall x l1 l2, subseq l1 l2 -> subseq l1 (x :: l2)
| subseq_keep : forall x l1 l2, subseq l1 l2 -> subseq (x :: l1) (x :: l2).

(** A piece of a scan that is not a slash outside every match. *)
Definition slash_free (x : ascii + mobj ascii) : Prop :=
  match x with
  | inl c => c <> "/"%char
  | inr _ => True
  end.

(** A symbol that is a character, or a placeholder drawn at or after the
    [n]-th. *)
Definition index_from (n : nat) (t : tok) : Prop :=
  match t with
  | Ch _ => True
  | Ph j => n <= j
  end.


(** The text is empty or its last character is a line feed. *)
Definition ends_lines (s : str) : bool :=
  match rev s with
  | [] => true
  | c :: _ => Ascii.eqb c NL
  end.


(* ================================================================== *)
(** ** Specification-side definitions for the extracted rules *)
(* ================================================================== *)

(** A rule as the data model describes it: Required or Recommended, of a
    severity that is reported, at a path, with a fix suggestion, and
    carrying either an expected value or a validator, never both, and no
    forbidden value. *)
Definition well_formed_rule (r : Rule) : Prop :=
  type r <> FORBIDDEN
  /\ severity r <> SUCCESS
  /\ path r <> []
  /\ forbidden_value r = VNone
  /\ fix_suggestion r <> None
  /\ ((is_not_none (expected_value r) = true /\ validator r = None)
      \/ (expected_value r = VNone /\ validator r <> None)).

Ltac solve_well_formed :=
  unfold well_formed_rule;
  cbn [type severity path forbidden_value fix_suggestion expected_value
       validator is_not_none];
  split; [discriminate|];
  split; [discriminate|];
  split; [discriminate|];
  split; [reflexivity|];
  split; [discriminate|];
  first [left; split; reflexivity
        |right; split; [reflexivity|discriminate]].

(** The ids of the rules the platform requires, in the order they are
    extracted. *)
Definition platform_rule_ids : list string :=
  [ "convex-required-target"; "convex-required-module";
    "convex-required-forceConsistentCasingInFileNames";
    "convex-required-isolatedModules"; "convex-required-noEmit";
    "convex-required-lib"; "convex-module-resolution"; "convex-jsx";
    "convex-exclude-generated" ].

(** A document whose guidelines ask for strict types. *)
Definition strict_doc : MDCDocument :=
  MkDoc (VDict [])
        [("Typescript guidelines", s2l "- Be strict with types")] [].

(** A configuration that turns [strict] off, and the text of its file. *)
Definition lax_config_text : str :=
  txt "{'compilerOptions': {'strict': false, 'target': 'ESNext'}}".

Definition lax_config : dict value :=
  [("compilerOptions",
    VDict [("strict", VBool false); ("target", VStr "ESNext")])].

Definition lax_files : list (string * (str * result value)) :=
  [("tsconfig.json", (lax_config_text, Ok (VDict lax_config)))].

(* ================================================================== *)
(** ** Paths, the file system and [main] *)
(* ================================================================== *)

(** A [Path] by its parts; an absolute path has the part [/] first. *)
Definition fpath := list string.

Definition fpath_eqb (a b : fpath) : bool :=
  if list_eq_dec string_dec a b then true else false.

Fixpoint join_parts (parts : list string) : string :=
  match parts with
  | [] => ""
  | [p] => p
  | p :: rest => (p ++ "/" ++ join_parts rest)%string
  end.

(** [str(path)]. *)
Definition fpath_str (p : fpath) : string :=
  match p with
  | [] => "."
  | "/" :: rest => ("/" ++ join_parts rest)%string
  | _ => join_parts p
  end.

(** What [main] takes from the system besides [Env]: which paths exist,
    the home directory, [Path(s).resolve()], and for a directory the
    paths of [glob("**/tsconfig*.json")] relative to it (pathlib yields
    them under the directory). *)
Record Sys : Type := MkSys
  { sys_env : Env;
    sys_exists : fpath -> bool;
    sys_home : fpath;
    sys_resolve : string -> fpath;
    sys_glob : fpath -> list fpath }.

(** [search_locations] of [find_rules_file]. *)
Definition search_locations (home project_dir : fpath) : list fpath :=
  [ project_dir ++ ["convex_rules.mdc"];
    project_dir ++ ["docs"; "convex_rules.mdc"];
    project_dir ++ [".convex"; "rules.mdc"];
    home ++ ["projects"; "occuhealth-v2"; "convex_rules.mdc"];
    home ++ ["projects"; "convex-rules"; "convex_rules.mdc"];
    home ++ [".convex"; "convex_rules.mdc"];
    ["/"; "etc"; "convex"; "convex_rules.mdc"] ].

(** [find_rules_file]: the first location that exists. *)
Definition find_rules_file (sys : Sys) (project_dir : fpath) : option fpath :=
  find (sys_exists sys) (search_locations (sys_home sys) project_dir).

(** [standard_configs] of [find_tsconfig_files]. *)
Definition standard_configs (project_dir : fpath) : list (string * fpath) :=
  [ ("Main TypeScript Config", project_dir ++ ["tsconfig.json"]);
    ("App TypeScript Config", project_dir ++ ["tsconfig.app.json"]);
    ("Convex TypeScript Config", project_dir ++ ["convex"; "tsconfig.json"]);
    ("Node TypeScript Config", project_dir ++ ["tsconfig.node.json"]);
    ("Build TypeScript Config", project_dir ++ ["tsconfig.build.json"]) ].

Definition ignored_parts : list string :=
  [".git"; "node_modules"; "dist"; "build"; ".next"].

(** [any(part in [...] for part in parts)]. *)
Definition has_ignored_part (p : fpath) : bool :=
  existsb (fun part => existsb (String.eqb part) ignored_parts) p.

(** [any(tsconfig_path == config[1] for config in configs)]. *)
Definition already_listed (p : fpath) (configs : list (string * fpath))
  : bool :=
  existsb (fun config => fpath_eqb p (snd config)) configs.

(** Lines 528-538: the loop over the paths the glob yields. *)
Fixpoint glob_loop (project_dir : fpath) (matches : list fpath)
         (configs : list (string * fpath)) : list (string * fpath) :=
  match matches with
  | [] => configs
  | rel_path :: matches' =>
      let tsconfig_path := project_dir ++ rel_path in
      if has_ignored_part tsconfig_path then
        glob_loop project_dir matches' configs
      else if negb (already_listed tsconfig_path configs) then
        glob_loop project_dir matches'
          (configs ++ [(("TypeScript Config (" ++ fpath_str rel_path ++ ")")%string,
                        tsconfig_path)])
      else glob_loop project_dir matches' configs
  end.

(** [find_tsconfig_files]. *)
Definition find_tsconfig_files (sys : Sys) (project_dir : fpath)
  : list (string * fpath) :=
  glob_loop project_dir (sys_glob sys project_dir)
            (filter (fun config => sys_exists sys (snd config))
                    (standard_configs project_dir)).




(* ================================================================== *)
(** ** Specification-side definitions for the document parser *)
(* ================================================================== *)

(** The marker lines of a front-matter block: the opening [---] with its
    line feed, and the closing one with the line feed before it. *)
Definition fm_open : str := s2l "---" ++ [NL].

Definition fm_close : str := NL :: s2l "---" ++ [NL].

(** A rules document with a front matter, a section and nothing else. *)
Definition front_matter_example_text : str :=
  txt "---~description: Rules~globs: **/*.ts~---~# Guidelines~Be strict.~".

(** A headed section of a document as it is written: the marks of the
    heading, the white space after them, the title, which ends the
    heading line, and the text from the next line on. *)
Record headed_section : Type := HeadedSection
  { h_marks : str;
    h_gap : str;
    h_title : str;
    h_text : str }.

Definition heading_of (h : headed_section) : str :=
  h_marks h ++ h_gap h ++ h_title h.

(** The position that has [before] behind it starts a line. *)
Definition line_start (before : str) : bool :=
  match before with
  | [] => true
  | c :: _ => Ascii.eqb c NL
  end.

(** No line of the text starts with the heading mark. *)
Definition no_heading_line (s : str) : bool :=
  negb (contains [NL; "#"%char] (NL :: s)).

Definition heading_ok (h : headed_section) : bool :=
  match h_marks h, h_gap h, h_title h with
  | mark :: marks, g :: gap, c :: title =>
      forallb (is_char "#") (mark :: marks)
      && forallb py_isspace (g :: gap)
      && negb (py_isspace c)
      && forallb dot (c :: title)
      && no_heading_line (h_text h)
  | _, _, _ => false
  end.

(** Every section is well written, and every section but the last ends
    with a line end, so that the next heading starts a line. *)
Fixpoint sections_ok (hs : list headed_section) : bool :=
  match hs with
  | [] => true
  | h :: hs' =>
      heading_ok h
      && match hs' with [] => true | _ :: _ => ends_lines (h_text h) end
      && sections_ok hs'
  end.

Fixpoint sections_text (hs : list headed_section) : str :=
  match hs with
  | [] => []
  | h :: hs' => heading_of h ++ NL :: h_text h ++ sections_text hs'
  end.

(** The pieces [re.split] cuts such a document into. *)
Fixpoint split_list (piece : str) (hs : list headed_section) : list str :=
  match hs with
  | [] => [piece]
  | h :: hs' => piece :: heading_of h :: split_list (NL :: h_text h) hs'
  end.

(** The name a heading is stored under, and what is stored. *)
Definition section_key (h : headed_section) : string :=
  l2s (strip (h_title h)).

Definition section_body (h : headed_section) : str := NL :: h_text h.

Definition store_section (d : dict str) (h : headed_section) : dict str :=
  dict_set (section_key h) (section_body h) d.

(** A document with a preface, two sections of one title and a section
    of a deeper level whose title is followed by a blank. *)
Definition headed_example : list headed_section :=
  [ HeadedSection (s2l "#") (s2l " ") (s2l "Types") (txt "Use C# names.~");
    HeadedSection (s2l "##") (s2l "  ") (s2l "Strict mode ") (txt "~on~");
    HeadedSection (s2l "#") (s2l " ") (s2l "Types") (txt "Later text") ].

(** A fenced code block as it is written: the language after the
    opening fence, the code from the next line to the closing fence, and
    the text after the closing fence up to the next block. *)
Record fenced_block : Type := FencedBlock
  { b_language : str;
    b_code : str;
    b_after : str }.

Definition fence : str := s2l "```".

Definition no_backtick (s : str) : bool := forallb (not_in ["`"%char]) s.

(** The language is made of word characters, the code holds no fence,
    not even one completed by the closing fence, and the text after the
    block holds no backtick. *)
Definition block_ok (b : fenced_block) : bool :=
  forallb py_isword (b_language b)
  && negb (contains fence (b_code b ++ s2l "``"))
  && no_backtick (b_after b).

Fixpoint blocks_text (bs : list fenced_block) : str :=
  match bs with
  | [] => []
  | b :: bs' =>
      (fence ++ b_language b ++ NL :: b_code b ++ fence)
        ++ b_after b ++ blocks_text bs'
  end.

(** The entry of [doc.code_blocks] for a block. *)
Definition block_entry (b : fenced_block) : string * string :=
  (match b_language b with
   | [] => "text"%string
   | _ :: _ => l2s (b_language b)
   end,
   l2s (b_code b)).

(** A document with a TypeScript block, a block without language that
    holds single backticks, and text around them. *)
Definition fenced_example : list fenced_block :=
  [ FencedBlock (s2l "ts") (txt "const a = 1;~") (txt "~Then:~");
    FencedBlock [] (txt "use `strict` mode~") (txt "~Done.") ].

(** The closing brackets of the trailing-comma pattern. *)
Definition closer (c : ascii) : bool := is_char "}" c || is_char "]" c.

(** After optional white space the text goes on with a closing
    bracket. *)
Definition closes (s : str) : bool :=
  match lstrip s with
  | c :: _ => closer c
  | [] => false
  end.

(** The text is a comma that the pattern removes. *)
Definition trailing_comma_at (s : str) : bool :=
  match s with
  | c :: s' => is_char "," c && closes s'
  | [] => false
  end.

Fixpoint has_trailing_comma (s : str) : bool :=
  trailing_comma_at s
  || match s with
     | [] => false
     | _ :: s' => has_trailing_comma s'
     end.

(** The text without its commas before a closing bracket, read from the
    left one character at a time. *)
Fixpoint drop_commas (s : str) : str :=
  match s with
  | [] => []
  | c :: s' =>
      if is_char "," c && closes s' then drop_commas s'
      else c :: drop_commas s'
  end.





(** A rules file with a front matter and a section of guidelines. *)
Definition rules_file_body : str :=
  txt "# Typescript guidelines~- Be strict with types~".

Definition rules_file_text : str :=
  fm_open ++ txt "description: Rules~globs: **/*.ts" ++ fm_close
          ++ rules_file_body.

Definition rules_files : list (string * (str * result value)) :=
  [("convex_rules.mdc", (rules_file_text, Raise (JSONDecodeError "not JSON")))].

(* ================================================================== *)
(** ** Path resolution and the rule loop *)
(* ================================================================== *)

Unset Implicit Arguments.

Lemma navigate_resolve (keys : list string) :
  forall v, navigate v keys = Ok (resolve v keys).
Proof.
  induction keys as [|key keys IH]; intros v.
  - reflexivity.
  - destruct v; try reflexivity.
    unfold resolve. simpl. unfold dict_mem.
    destruct (dict_get key d) as [v'|] eqn:E; simpl.
    + rewrite IH. reflexivity.
    + reflexivity.
Qed.

Lemma evaluate_rule_check (env : Env) (r : Rule) (config : value)
      (file : string) :
  evaluate_rule env r config file
  = Ok (check_rule env r (resolve config (path r)) file).
Proof.
  unfold evaluate_rule. rewrite navigate_resolve. reflexivity.
Qed.

Lemma check_rule_rule (env : Env) (r : Rule) (v : value) (file : string)
      (viol : Violation) :
  check_rule env r v file = Some viol -> rule viol = r.
Proof.
  unfold check_rule, violation_of.
  destruct (type r); destruct (is_not_none (expected_value r));
    try destruct (py_ne v (expected_value r));
    try destruct (validator r) as [f|]; try destruct (negb (f v));
    try destruct (py_eq v (forbidden_value r));
    intros H; inversion H; reflexivity.
Qed.

Lemma rules_loop_spec (env : Env) (is_refs : bool) (config : value)
      (file : string) (rules : list Rule) :
  forall vs ps,
    rules_loop env is_refs config file rules vs ps
    = Ok (vs ++ violations_of env config file (kept_rules is_refs rules),
          ps ++ filter (fun r => negb (violates env config file r))
                       (kept_rules is_refs rules)).
Proof.
  induction rules as [|r rules IH]; intros vs ps; simpl.
  - rewrite !app_nil_r. reflexivity.
  - unfold kept_rules in *. simpl.
    destruct (is_refs && at_compiler_options r); simpl.
    + apply IH.
    + rewrite evaluate_rule_check. simpl. unfold violates.
      destruct (check_rule env r (resolve config (path r)) file) as [v|];
        simpl; rewrite IH, <- app_assoc; reflexivity.
Qed.

Lemma violations_of_rules (env : Env) (config : value) (file : string)
      (rules : list Rule) :
  map rule (violations_of env config file rules)
  = filter (violates env config file) rules.
Proof.
  induction rules as [|r rules IH]; simpl; [reflexivity|].
  unfold violates at 1.
  destruct (check_rule env r (resolve config (path r)) file) as [v|] eqn:E;
    simpl.
  - rewrite (check_rule_rule _ _ _ _ _ E), IH. reflexivity.
  - exact IH.
Qed.

Lemma filter_partition_length {T : Type} (p : T -> bool) (l : list T) :
  length (filter p l) + length (filter (fun x => negb (p x)) l) = length l.
Proof.
  induction l as [|x l IH]; simpl; [reflexivity|].
  destruct (p x); simpl; lia.
Qed.

Lemma is_references_config_defined (config : value) :
  is_container config = true ->
  exists b, is_references_config config = Ok b.
Proof.
  unfold is_references_config.
  destruct config; simpl; try discriminate; intros _.
  - destruct (contains _ _); simpl; eauto.
  - destruct (existsb _ _); simpl; eauto.
  - destruct (dict_mem "references" d); simpl; eauto.
Qed.

(* ================================================================== *)
(** ** The evaluator's properties *)
(* ================================================================== *)

(** C5.  Resolving a rule's path never raises: it yields the value at the
    path when every key is present in a nested mapping and [None] as soon
    as a key is missing or the value reached is not a mapping; the rule is
    then checked on that value. *)
Theorem path_resolution_total (env : Env) (r : Rule) (config : value)
        (file : string) :
  navigate config (path r)
  = Ok (match lookup_path config (path r) with
        | Some v => v
        | None => VNone
        end)
  /\ (forall key keys d,
         path r = key :: keys -> config = VDict d ->
         dict_get key d = None -> navigate config (path r) = Ok VNone)
  /\ (forall key keys,
         path r = key :: keys -> isinstance_dict config = false ->
         navigate config (path r) = Ok VNone)
  /\ evaluate_rule env r config file
     = Ok (check_rule env r (resolve config (path r)) file).
Proof.
  split; [apply navigate_resolve|].
  split; [|split].
  - intros key keys d Hp Hc Hk. rewrite navigate_resolve.
    unfold resolve. rewrite Hp, Hc. simpl. rewrite Hk. reflexivity.
  - intros key keys Hp Hc. rewrite navigate_resolve.
    unfold resolve. rewrite Hp. destruct config; try reflexivity.
    discriminate.
  - apply evaluate_rule_check.
Qed.

Lemma evaluate_config_spec (env : Env) (rules : list Rule) (config : value)
      (file : string) (is_refs : bool) :
  is_references_config config = Ok is_refs ->
  evaluate_config env rules config file
  = Ok (violations_of env config file (kept_rules is_refs rules),
        filter (fun r => negb (violates env config file r))
               (kept_rules is_refs rules)).
Proof.
  intros H. unfold evaluate_config. rewrite H. simpl.
  apply rules_loop_spec.
Qed.

(** The partition of the rules.  For a configuration file that loads to
    a value on which the membership test of line 340 is defined (an
    object, an array or a string), the rules that are not passed over are
    split between the two lists: the violations are those of the kept
    rules that violate, in order, the passed rules are the others, no
    rule is in both and the two counts add up to the number of kept
    rules. *)
Theorem evaluation_partitions_rules (env : Env) (rules : list Rule)
        (config_path : string) (config : value)
        (Hload : load_config env config_path = Ok config)
        (Hc : is_container config = true) :
  exists is_refs vs ps,
    is_references_config config = Ok is_refs
    /\ evaluate env rules config_path = Ok (vs, ps)
    /\ map rule vs
       = filter (violates env config config_path) (kept_rules is_refs rules)
    /\ ps = filter (fun r => negb (violates env config config_path r))
                   (kept_rules is_refs rules)
    /\ (forall r, In r (kept_rules is_refs rules) ->
                  In r (map rule vs) \/ In r ps)
    /\ (forall r, ~ (In r (map rule vs) /\ In r ps))
    /\ length vs + length ps = length (kept_rules is_refs rules).
Proof.
  destruct (is_references_config_defined config Hc) as [is_refs Hr].
  exists is_refs.
  eexists. eexists.
  split; [exact Hr|].
  split.
  { unfold evaluate. rewrite Hload.
    apply (evaluate_config_spec env rules config config_path is_refs Hr). }
  rewrite violations_of_rules.
  split; [reflexivity|]. split; [reflexivity|].
  split; [|split].
  - intros r Hin.
    destruct (violates env config config_path r) eqn:E.
    + left. apply filter_In. auto.
    + right. apply filter_In. rewrite E. auto.
  - intros r [H1 H2].
    apply filter_In in H1. apply filter_In in H2.
    destruct H1 as [_ H1]. destruct H2 as [_ H2].
    rewrite H1 in H2. discriminate.
  - rewrite <- (length_map rule), violations_of_rules.
    apply filter_partition_length.
Qed.

(** C4.  A configuration with a [references] list and no
    [compilerOptions] entry: no violation and no passed record is made
    for a rule whose path starts at [compilerOptions], whatever its kind,
    and the other rules are evaluated as usual. *)
Theorem references_only_skips_options (env : Env) (rules : list Rule)
        (config_path : string) (d : dict value) (refs : list value)
        (Hload : load_config env config_path = Ok (VDict d))
        (Hrefs : dict_get "references" d = Some (VList refs))
        (Hopts : dict_get "compilerOptions" d = None) :
  exists vs ps,
    evaluate env rules config_path = Ok (vs, ps)
    /\ Forall (fun v => at_compiler_options (rule v) = false) vs
    /\ Forall (fun r => at_compiler_options r = false) ps
    /\ map rule vs
       = filter (violates env (VDict d) config_path)
                (filter (fun r => negb (at_compiler_options r)) rules)
    /\ ps = filter (fun r => negb (violates env (VDict d) config_path r))
                   (filter (fun r => negb (at_compiler_options r)) rules)
    /\ length vs + length ps
       = length (filter (fun r => negb (at_compiler_options r)) rules).
Proof.
  assert (Hr : is_references_config (VDict d) = Ok true).
  { unfold is_references_config. simpl. unfold dict_mem.
    rewrite Hrefs, Hopts. reflexivity. }
  eexists. eexists.
  split.
  { unfold evaluate. rewrite Hload.
    apply (evaluate_config_spec env rules (VDict d) config_path true Hr). }
  assert (Hk : kept_rules true rules
               = filter (fun r => negb (at_compiler_options r)) rules)
    by reflexivity.
  rewrite Hk.
  assert (Hv : map rule (violations_of env (VDict d) config_path
                 (filter (fun r => negb (at_compiler_options r)) rules))
               = filter (violates env (VDict d) config_path)
                   (filter (fun r => negb (at_compiler_options r)) rules))
    by apply violations_of_rules.
  split; [|split; [|split; [exact Hv|split; [reflexivity|]]]].
  - apply Forall_forall. intros v Hin.
    apply (in_map rule) in Hin. rewrite Hv in Hin.
    apply filter_In in Hin. destruct Hin as [Hin _].
    apply filter_In in Hin. destruct Hin as [_ Hin].
    destruct (at_compiler_options (rule v)); [discriminate|reflexivity].
  - apply Forall_forall. intros r Hin.
    apply filter_In in Hin. destruct Hin as [Hin _].
    apply filter_In in Hin. destruct Hin as [_ Hin].
    destruct (at_compiler_options r); [discriminate|reflexivity].
  - rewrite <- (length_map rule), Hv. apply filter_partition_length.
Qed.

Lemma satisfied_not_violates (env : Env) (config : value) (file : string)
      (r : Rule) :
  rule_satisfied config r ->
  check_rule env r (resolve config (path r)) file = None.
Proof.
  unfold rule_satisfied, check_rule, py_ne.
  destruct (type r); destruct (is_not_none (expected_value r));
    try destruct (validator r) as [f|]; intros H; try rewrite H;
    reflexivity.
Qed.

Lemma satisfied_no_violation (env : Env) (config : value) (file : string)
      (rules : list Rule) :
  Forall (rule_satisfied config) rules ->
  violations_of env config file rules = []
  /\ filter (fun r => negb (violates env config file r)) rules = rules.
Proof.
  induction 1 as [|r rules Hr _ [IH1 IH2]]; simpl; [auto|].
  unfold violates at 1.
  rewrite (satisfied_not_violates env config file r Hr). simpl.
  rewrite IH1, IH2. auto.
Qed.

Lemma kept_rules_satisfied (config : value) (is_refs : bool)
      (rules : list Rule) :
  Forall (rule_satisfied config) rules ->
  Forall (rule_satisfied config) (kept_rules is_refs rules).
Proof.
  intros H. apply Forall_forall. intros r Hin.
  apply filter_In in Hin. destruct Hin as [Hin _].
  revert r Hin. apply Forall_forall. exact H.
Qed.

Lemma kept_rules_false (rules : list Rule) :
  kept_rules false rules = rules.
Proof.
  unfold kept_rules. simpl.
  induction rules as [|x l IH]; simpl; [|rewrite IH]; reflexivity.
Qed.

(** On any rule list: a configuration on which the membership test is
    defined and that satisfies every rule has no violation. *)
Lemma satisfied_config_no_violation (env : Env) (rules : list Rule)
      (config : value) (file : string) :
  is_container config = true ->
  Forall (rule_satisfied config) rules ->
  exists ps, evaluate_config env rules config file = Ok ([], ps).
Proof.
  intros Hc Hs.
  destruct (is_references_config_defined config Hc) as [b Hb].
  rewrite (evaluate_config_spec env rules config file b Hb).
  destruct (satisfied_no_violation env config file _
              (kept_rules_satisfied config b rules Hs)) as [H1 _].
  rewrite H1. eauto.
Qed.

(** The extracted list always holds the rule on [compilerOptions.target];
    a configuration that satisfies it is a mapping with a
    [compilerOptions] entry. *)
Lemma target_rule_extracted (env : Env) (doc : MDCDocument) :
  exists r, In r (extract_rules env doc)
            /\ type r = REQUIRED
            /\ path r = ["compilerOptions"; "target"]
            /\ expected_value r = VStr "ESNext".
Proof.
  eexists. split.
  - unfold extract_rules. apply in_or_app. right. apply in_or_app. left.
    unfold extract_convex_typescript_rules. apply in_or_app. left.
    simpl. left. reflexivity.
  - simpl. auto.
Qed.

Lemma satisfied_target_has_options (config : value) (r : Rule) :
  type r = REQUIRED -> path r = ["compilerOptions"; "target"] ->
  expected_value r = VStr "ESNext" ->
  rule_satisfied config r ->
  is_references_config config = Ok false.
Proof.
  intros Ht Hp He. unfold rule_satisfied, resolve.
  rewrite Ht, Hp, He. simpl.
  destruct config; simpl; try discriminate.
  unfold is_references_config. simpl. unfold dict_mem.
  destruct (dict_get "compilerOptions" d) as [v|]; simpl.
  - intros _. destruct (dict_get "references" d); reflexivity.
  - discriminate.
Qed.

(** C2.  A configuration file that loads and whose contents satisfy every
    rule of the extracted list is evaluated to an empty violation list;
    every rule is then recorded as passed. *)
Theorem satisfying_config_has_no_violation (env : Env) (doc : MDCDocument)
        (config_path : string) (config : value)
        (Hload : load_config env config_path = Ok config)
        (Hsat : Forall (rule_satisfied config) (extract_rules env doc)) :
  evaluate env (extract_rules env doc) config_path
  = Ok ([], extract_rules env doc).
Proof.
  unfold evaluate. rewrite Hload.
  destruct (target_rule_extracted env doc) as [r [Hin [Ht [Hp He]]]].
  assert (Hr : rule_satisfied config r).
  { revert r Hin Ht Hp He. rewrite Forall_forall in Hsat.
    intros r Hin _ _ _. apply Hsat. exact Hin. }
  pose proof (satisfied_target_has_options config r Ht Hp He Hr) as Hrefs.
  rewrite (evaluate_config_spec env _ config config_path false Hrefs).
  rewrite kept_rules_false.
  destruct (satisfied_no_violation env config config_path _ Hsat) as [H1 H2].
  rewrite H1, H2. reflexivity.
Qed.


(* ================================================================== *)
(** ** The reporter and the exit status *)
(* ================================================================== *)

Lemma error_count_positive (vs : list Violation) :
  (0 <? count_severity ERROR vs) = has_error vs.
Proof.
  unfold count_severity, has_error.
  induction vs as [|v vs IH]; simpl; [reflexivity|].
  destruct (Severity_eqb (severity (rule v)) ERROR); simpl;
    [reflexivity|exact IH].
Qed.

Lemma report_verdict (file : string) (vs : list Violation) (ps : list Rule) :
  report file vs ps = negb (has_error vs).
Proof.
  unfold report. rewrite error_count_positive.
  destruct (has_error vs); simpl; [reflexivity|].
  destruct (0 <? count_severity WARNING vs); reflexivity.
Qed.

Lemma Severity_eqb_eq (a b : Severity) : Severity_eqb a b = true <-> a = b.
Proof.
  destruct a, b; simpl; split; intros H; try reflexivity; discriminate.
Qed.

Lemma has_error_iff (vs : list Violation) :
  has_error vs = true <-> exists v, In v vs /\ severity (rule v) = ERROR.
Proof.
  unfold has_error. rewrite existsb_exists.
  split; intros [v [Hin H]]; exists v; split; auto;
    apply Severity_eqb_eq; exact H.
Qed.

Lemma main_loop_verdict (env : Env) (rules : list Rule)
      (files : list (string * string))
      (results : list (list Violation * list Rule)) :
  Forall2 (fun f r => evaluate env rules (snd f) = Ok r) files results ->
  forall all_passed,
    main_loop env rules files all_passed
    = Ok (all_passed && forallb (fun r => negb (has_error (fst r))) results).
Proof.
  induction 1 as [|f r files results Hf _ IH]; intros all_passed; simpl.
  - rewrite andb_true_r. reflexivity.
  - destruct f as [name config_path]. simpl in Hf. rewrite Hf. simpl.
    rewrite IH, report_verdict.
    destruct (has_error (fst r)), all_passed; reflexivity.
Qed.

(** C1.  The reporter's verdict for a file is false exactly when one of
    its violations has severity Error, so it is true when every violation
    is a Warning or an Info; and when [main] has found configuration
    files and evaluated each of them, its exit status is 0 exactly when
    no file has an Error violation, 1 otherwise. *)
Theorem verdict_and_exit_status (env : Env) (rules : list Rule)
        (files : list (string * string))
        (results : list (list Violation * list Rule))
        (Hfiles : files <> [])
        (Hev : Forall2 (fun f r => evaluate env rules (snd f) = Ok r)
                       files results) :
  (forall file vs ps,
      report file vs ps = false
      <-> exists v, In v vs /\ severity (rule v) = ERROR)
  /\ (forall file vs ps,
         (forall v, In v vs ->
                    severity (rule v) = WARNING \/ severity (rule v) = INFO) ->
         report file vs ps = true)
  /\ (main_from_configs env rules files = 0%Z
      <-> forall r v, In r results -> In v (fst r) ->
                      severity (rule v) <> ERROR)
  /\ (main_from_configs env rules files = 1%Z
      <-> exists r v, In r results /\ In v (fst r)
                      /\ severity (rule v) = ERROR).
Proof.
  assert (Hmain : main_from_configs env rules files
                  = main_evaluate env rules files).
  { destruct files; [contradiction|reflexivity]. }
  rewrite Hmain.
  assert (Hrep : forall file vs ps,
             report file vs ps = false
             <-> exists v, In v vs /\ severity (rule v) = ERROR).
  { intros file vs ps. rewrite report_verdict, <- has_error_iff.
    destruct (has_error vs); simpl; split; intros H;
      try reflexivity; discriminate. }
  assert (Hall : forallb (fun r => negb (has_error (fst r))) results = false
                 <-> exists r v, In r results /\ In v (fst r)
                                 /\ severity (rule v) = ERROR).
  { split.
    - intros H.
      destruct (existsb (fun r => has_error (fst r)) results) eqn:E.
      + apply existsb_exists in E. destruct E as [r [Hin He]].
        apply has_error_iff in He. destruct He as [v [Hv Hs]].
        exists r, v. auto.
      + exfalso. assert (forallb (fun r => negb (has_error (fst r))) results
                         = true).
        { apply forallb_forall. intros r Hin.
          destruct (has_error (fst r)) eqn:Er; [|reflexivity].
          assert (existsb (fun r => has_error (fst r)) results = true)
            by (apply existsb_exists; exists r; auto).
          congruence. }
        congruence.
    - intros [r [v [Hin [Hv Hs]]]].
      destruct (forallb (fun r => negb (has_error (fst r))) results) eqn:E;
        [|reflexivity].
      rewrite forallb_forall in E. specialize (E r Hin).
      assert (has_error (fst r) = true)
        by (apply has_error_iff; exists v; auto).
      rewrite H in E. discriminate. }
  split; [exact Hrep|]. split; [|split].
  - intros file vs ps Hw.
    destruct (report file vs ps) eqn:E; [reflexivity|].
    apply Hrep in E. destruct E as [v [Hin Hs]].
    destruct (Hw v Hin) as [H|H]; rewrite H in Hs; discriminate.
  - unfold main_evaluate. rewrite (main_loop_verdict env rules files results Hev).
    simpl.
    destruct (forallb (fun r => negb (has_error (fst r))) results) eqn:E;
      simpl; split; intros H.
    + intros r v Hin Hv Hs.
      assert (Hf : true = false) by (apply Hall; exists r, v; auto).
      discriminate.
    + reflexivity.
    + discriminate.
    + exfalso. destruct (proj1 Hall eq_refl) as [r [v [Hin [Hv Hs]]]].
      exact (H r v Hin Hv Hs).
  - unfold main_evaluate. rewrite (main_loop_verdict env rules files results Hev).
    simpl. rewrite <- Hall.
    destruct (forallb (fun r => negb (has_error (fst r))) results);
      simpl; split; intros H; try reflexivity; discriminate.
Qed.

(* ================================================================== *)
(** ** The properties on the example files *)
(* ================================================================== *)

Lemma example_load_references :
  load_config (example_env example_files) "tsconfig.json"
  = Ok (VDict references_config).
Proof. vm_compute. reflexivity. Qed.

Lemma example_load_good :
  load_config (example_env example_files) "tsconfig.app.json" = Ok good_config.
Proof. vm_compute. reflexivity. Qed.

(** The references-only file against the extracted rules: the rule on
    [exclude] is the one that is evaluated, and it is violated. *)
Lemma references_only_example :
  exists vs ps,
    evaluate (example_env example_files)
             (extract_rules (example_env example_files) example_doc)
             "tsconfig.json" = Ok (vs, ps)
    /\ map (fun v => id (rule v)) vs = ["convex-exclude-generated"]
    /\ ps = [].
Proof.
  destruct (references_only_skips_options
              (example_env example_files)
              (extract_rules (example_env example_files) example_doc)
              "tsconfig.json" references_config
              [VDict [("path", VStr "./x")]]
              example_load_references eq_refl eq_refl)
    as [vs [ps [He [_ [_ [Hv [Hp _]]]]]]].
  exists vs, ps. split; [exact He|]. split.
  - rewrite <- (map_map rule id), Hv. vm_compute. reflexivity.
  - rewrite Hp. vm_compute. reflexivity.
Defined.

Lemma example_load_warned :
  load_config (example_env example_files) "tsconfig.node.json"
  = Ok warned_config.
Proof. vm_compute. reflexivity. Qed.

Lemma example_load_scalar :
  load_config (example_env example_files) "tsconfig.build.json" = Ok (VInt 5).
Proof. vm_compute. reflexivity. Qed.

(** The file that satisfies the eleven extracted rules has no
    violation. *)
Lemma satisfying_config_example :
  evaluate (example_env example_files)
           (extract_rules (example_env example_files) example_doc)
           "tsconfig.app.json"
  = Ok ([], extract_rules (example_env example_files) example_doc)
  /\ length (extract_rules (example_env example_files) example_doc) = 11.
Proof.
  split; [|reflexivity].
  apply (satisfying_config_has_no_violation
           (example_env example_files) example_doc "tsconfig.app.json"
           good_config example_load_good).
  vm_compute. repeat constructor.
Defined.


(** So is the file that does not exist. *)
Example missing_file_example :
  evaluate (example_env example_files) [] "tsconfig.none.json"
  = Ok ([parse_error_violation "tsconfig.none.json"
           (FileNotFoundError "No such file or directory")], []).
Proof. vm_compute. reflexivity. Qed.

(** The file with a warning and an information: two violations, nine
    passed rules. *)
Lemma partition_example :
  exists vs ps,
    evaluate (example_env example_files)
             (extract_rules (example_env example_files) example_doc)
             "tsconfig.node.json" = Ok (vs, ps)
    /\ map (fun v => id (rule v)) vs = ["convex-required-lib"; "convex-jsx"]
    /\ length vs + length ps = 11.
Proof.
  destruct (evaluation_partitions_rules
              (example_env example_files)
              (extract_rules (example_env example_files) example_doc)
              "tsconfig.node.json" warned_config
              example_load_warned eq_refl)
    as [is_refs [vs [ps [Hr [He [Hv [_ [_ [_ Hl]]]]]]]]].
  assert (Hf : is_refs = false).
  { vm_compute in Hr. inversion Hr. reflexivity. }
  subst is_refs.
  exists vs, ps. split; [exact He|]. split.
  - rewrite <- (map_map rule id), Hv. vm_compute. reflexivity.
  - rewrite Hl. reflexivity.
Defined.

(** C10 at a file that holds the JSON number 5.  The file parses, and
    [evaluate] raises a [TypeError] at the membership test of line 340
    instead of returning the two lists: for this configuration no rule
    reaches either list, whereas the walk down a rule's path, which tests
    [isinstance(value, dict)] first, would have taken the same value as
    absent. *)
Theorem scalar_config_raises :
  load_config (example_env example_files) "tsconfig.build.json" = Ok (VInt 5)
  /\ evaluate (example_env example_files)
              (extract_rules (example_env example_files) example_doc)
              "tsconfig.build.json"
     = Raise (TypeError "argument of type 'int' is not iterable")
  /\ ~ (exists vs ps,
           evaluate (example_env example_files)
                    (extract_rules (example_env example_files) example_doc)
                    "tsconfig.build.json" = Ok (vs, ps)).
Proof.
  split; [exact example_load_scalar|].
  assert (H : evaluate (example_env example_files)
                (extract_rules (example_env example_files) example_doc)
                "tsconfig.build.json"
              = Raise (TypeError "argument of type 'int' is not iterable"))
    by (vm_compute; reflexivity).
  split; [exact H|].
  intros [vs [ps He]]. rewrite H in He. discriminate.
Qed.

(** Two files, one clean and one with a warning and an information: the
    exit status is 0. *)
Lemma exit_status_example :
  main_from_configs (example_env example_files)
                (extract_rules (example_env example_files) example_doc)
                [("App TypeScript Config", "tsconfig.app.json");
                 ("Node TypeScript Config", "tsconfig.node.json")]
  = 0%Z.
Proof.
  assert (Hev :
    Forall2 (fun f r =>
               evaluate (example_env example_files)
                 (extract_rules (example_env example_files) example_doc)
                 (snd f) = Ok r)
      [("App TypeScript Config", "tsconfig.app.json");
       ("Node TypeScript Config", "tsconfig.node.json")]
      [ ([], extract_rules (example_env example_files) example_doc);
        (violations_of (example_env example_files) warned_config
           "tsconfig.node.json"
           (extract_rules (example_env example_files) example_doc),
         filter (fun r => negb (violates (example_env example_files)
                                  warned_config "tsconfig.node.json" r))
           (extract_rules (example_env example_files) example_doc)) ]).
  { constructor; [vm_compute; reflexivity|].
    constructor; [vm_compute; reflexivity|]. constructor. }
  assert (Hne : [("App TypeScript Config", "tsconfig.app.json");
                 ("Node TypeScript Config", "tsconfig.node.json")] <> [])
    by discriminate.
  destruct (verdict_and_exit_status _ _ _ _ Hne Hev) as [_ [_ [H0 _]]].
  apply H0.
  intros r v [Hr|[Hr|[]]] Hv; subst r.
  - destruct Hv.
  - vm_compute in Hv. destruct Hv as [Hv|[Hv|[]]]; subst v; discriminate.
Defined.

(* ================================================================== *)
(** ** Trailing commas, sections and the globs field on examples *)
(* ================================================================== *)

(** C7.  Three passes of the trailing-comma pattern take
    [{'a':1,}] to [{'a':1}] and [{'a':[1,2,],}] to [{'a':[1,2]}]; so
    does the whole cleaning of a configuration text. *)
Theorem trailing_commas_stripped :
  strip_trailing_commas (txt "{'a':1,}") = txt "{'a':1}"
  /\ strip_trailing_commas (txt "{'a':[1,2,],}") = txt "{'a':[1,2]}"
  /\ clean_config_text (fun _ => []) (txt "{'a':1,}") = txt "{'a':1}"
  /\ clean_config_text (fun _ => []) (txt "{'a':[1,2,],}")
     = txt "{'a':[1,2]}".
Proof. vm_compute. repeat split. Qed.

(** Commas separated from the closing bracket by white space, nested
    three deep. *)
Example trailing_commas_nested :
  strip_trailing_commas (txt "{'a': {'b': [1, [2, ], ], }, ~}")
  = txt "{'a': {'b': [1, [2 ] ] } ~}".
Proof. vm_compute. reflexivity. Qed.

(** C9 on a document with a text before its first heading: the sections
    hold the heading and nothing under [root]; the body of a heading runs
    to the next heading, and of two headings with one title the later
    one is kept. *)
Theorem sections_without_root :
  parse_sections (txt "intro~# A~body") = [("A", txt "~body")]
  /\ dict_get "root" (parse_sections (txt "intro~# A~body")) = None
  /\ parse_sections (txt "intro~# A~one~## B c ~two~# A~three")
     = [("A", txt "~three"); ("B c", txt "~two~")]
  /\ parse_sections (txt "no heading at all") = [].
Proof. vm_compute. repeat split. Qed.


(* ================================================================== *)
(** ** Facts about the matcher *)
(* ================================================================== *)

Section EngineFacts.
Context {A : Type}.

Lemma m_chr_cons (p : A -> bool) (b : list A) (c : A) (t : list A)
      (g : list (nat * list A)) (k : cont) :
  m (Chr p) (MState b (c :: t) g) k
  = if p c then k (MState (c :: b) t g) else None.
Proof. reflexivity. Qed.

Lemma m_chr_nil (p : A -> bool) (b : list A) (g : list (nat * list A))
      (k : cont) :
  m (Chr p) (MState b [] g) k = None.
Proof. reflexivity. Qed.

Lemma m_seq (r1 r2 : regex A) (st : mstate A) (k : cont) :
  m (Seq r1 r2) st k = m r1 st (fun st' => m r2 st' k).
Proof. reflexivity. Qed.

Lemma m_star (r : regex A) (st : mstate A) (k : cont) :
  m (Star r) st k = star_iter (m r) (length (rest st)) st k.
Proof. reflexivity. Qed.

Lemma m_group (n : nat) (r : regex A) (st : mstate A) (k : cont) :
  m (Group n r) st k
  = m r st (fun st' => k (MState (seen st') (rest st')
                                 ((n, consumed st st') :: groups st'))).
Proof. reflexivity. Qed.

Lemma star_iter_S (body : mstate A -> cont -> option (mstate A)) (n : nat)
      (st : mstate A) (k : cont) :
  star_iter body (S n) st k
  = match body st (fun st' =>
            if progress st st' then star_iter body n st' k else None) with
    | Some res => Some res
    | None => k st
    end.
Proof. reflexivity. Qed.

(** A greedy run over a character class stops where the class stops,
    when the continuation succeeds there. *)
Lemma star_chr_run (p : A -> bool) (run : list A) :
  forall n b a g (k : cont) x,
    forallb p run = true ->
    match a with [] => True | c :: _ => p c = false end ->
    length (run ++ a) <= n ->
    k (MState (rev run ++ b) a g) = Some x ->
    star_iter (m (Chr p)) n (MState b (run ++ a) g) k = Some x.
Proof.
  induction run as [|c run IH]; intros n b a g k x Hp Ha Hn Hk.
  - cbn [app rev] in *. destruct n as [|n]; [exact Hk|].
    rewrite star_iter_S. destruct a as [|c a].
    + rewrite m_chr_nil. exact Hk.
    + rewrite m_chr_cons, Ha. exact Hk.
  - simpl in Hp. apply andb_prop in Hp. destruct Hp as [Hc Hp].
    destruct n as [|n]; [simpl in Hn; lia|].
    rewrite star_iter_S. simpl app. rewrite m_chr_cons, Hc.
    assert (Hpr : progress (MState b (c :: run ++ a) g)
                           (MState (c :: b) (run ++ a) g) = true).
    { unfold progress. simpl. apply Nat.ltb_lt. lia. }
    rewrite Hpr.
    rewrite (IH n (c :: b) a g k x Hp Ha).
    + reflexivity.
    + simpl in Hn. lia.
    + simpl in Hk. rewrite <- app_assoc in Hk. exact Hk.
Qed.

Lemma firstn_app_length (a b : list A) :
  firstn (length (a ++ b) - length b) (a ++ b) = a.
Proof.
  rewrite length_app.
  replace (length a + length b - length b) with (length a + 0) by lia.
  rewrite firstn_app_2. simpl. apply app_nil_r.
Qed.

(** The scan copies a text in which the pattern matches nowhere. *)
Lemma scan_no_match (r : regex A) (aft : list A) :
  forall bef,
    (forall pre post, aft = pre ++ post ->
                      exec r (rev pre ++ bef) post = None) ->
    scan_from r 0 bef aft = map inl aft.
Proof.
  induction aft as [|c tl IH]; intros bef H.
  - pose proof (H [] [] eq_refl) as H0. cbn [rev app] in H0.
    cbn [scan_from]. rewrite H0. reflexivity.
  - pose proof (H [] (c :: tl) eq_refl) as H0. cbn [rev app] in H0.
    cbn [scan_from]. rewrite H0.
    rewrite IH; [reflexivity|].
    intros pre post E. specialize (H (c :: pre) post).
    cbn [rev app] in H. rewrite <- app_assoc in H. apply H.
    rewrite E. reflexivity.
Qed.

Lemma scan_skip (r : regex A) (s1 : list A) :
  forall n bef s2,
    length s1 = n ->
    scan_from r n bef (s1 ++ s2) = scan_from r 0 (rev s1 ++ bef) s2.
Proof.
  induction s1 as [|c s1 IH]; intros n bef s2 Hn.
  - simpl in Hn. subst n. reflexivity.
  - simpl in Hn. subst n. simpl. rewrite <- app_assoc. apply IH.
    reflexivity.
Qed.

(** The scan at a position where the pattern matches a text that is
    not empty. *)
Lemma scan_match (r : regex A) (bef mt aft : list A) (st' : mstate A) :
  mt <> [] ->
  m r (MState bef (mt ++ aft) []) Some = Some st' ->
  rest st' = aft ->
  scan_from r 0 bef (mt ++ aft)
  = inr (MObj mt (groups st') aft) :: scan_from r 0 (rev mt ++ bef) aft.
Proof.
  intros Hne Hm Hr.
  assert (He : exec r bef (mt ++ aft) = Some (MObj mt (groups st') aft)).
  { unfold exec. rewrite Hm, Hr, firstn_app_length. reflexivity. }
  destruct mt as [|c mt]; [contradiction|].
  cbn [app] in *. cbn [scan_from]. rewrite He.
  cbn [m_text length].
  rewrite (scan_skip r mt (length mt) (c :: bef) aft eq_refl).
  cbn [rev]. rewrite <- app_assoc. reflexivity.
Qed.

Lemma exec_text_prefix (r : regex A) (bef aft : list A) (mo : mobj A) :
  exec r bef aft = Some mo ->
  m_text mo = firstn (length (m_text mo)) aft.
Proof.
  unfold exec. destruct (m r (MState bef aft []) Some) as [st'|];
    [|discriminate].
  intros H. inversion H. cbn [m_text].
  rewrite length_firstn.
  destruct (Nat.le_ge_cases (length aft - length (rest st')) (length aft))
    as [Hle|Hge].
  - rewrite Nat.min_l by exact Hle. reflexivity.
  - rewrite Nat.min_r by exact Hge.
    rewrite !firstn_all2; [reflexivity|lia|exact Hge].
Qed.

(** The pieces of a scan put together give the text back. *)
Lemma scan_text (r : regex A) (aft : list A) :
  forall skip bef,
    flat_map piece_text (scan_from r skip bef aft) = skipn skip aft.
Proof.
  induction aft as [|c tl IH]; intros skip bef; cbn [scan_from].
  - destruct skip as [|n]; [|reflexivity].
    destruct (exec r bef []) as [mo|] eqn:E; [|reflexivity].
    cbn [flat_map piece_text]. rewrite app_nil_r.
    rewrite (exec_text_prefix r bef [] mo E). apply firstn_nil.
  - destruct skip as [|n]; [|apply IH].
    destruct (exec r bef (c :: tl)) as [mo|] eqn:E.
    + pose proof (exec_text_prefix r bef (c :: tl) mo E) as Hp.
      destruct (length (m_text mo)) as [|n] eqn:L.
      * cbn [flat_map piece_text]. rewrite IH.
        apply length_zero_iff_nil in L. rewrite L. reflexivity.
      * cbn [flat_map piece_text]. rewrite IH, Hp.
        cbn [firstn skipn app]. f_equal. apply firstn_skipn.
    + cbn [flat_map piece_text]. rewrite IH. reflexivity.
Qed.
End EngineFacts.

Lemma flat_map_inl {A : Type} (f : mobj A -> list A) (l : list A) :
  flat_map (fun x : A + mobj A => match x with
                                  | inl c => [c]
                                  | inr mo => f mo
                                  end) (map inl l) = l.
Proof.
  induction l as [|c l IH]; simpl; [|rewrite IH]; reflexivity.
Qed.

(** The scan copies the start of a text as long as the pattern matches
    at none of its positions. *)
Lemma scan_prefix_no_match {A : Type} (r : regex A) (pre : list A) :
  forall bef tl,
    (forall p1 p2, pre = p1 ++ p2 -> p2 <> [] ->
                   exec r (rev p1 ++ bef) (p2 ++ tl) = None) ->
    scan_from r 0 bef (pre ++ tl)
    = map inl pre ++ scan_from r 0 (rev pre ++ bef) tl.
Proof.
  induction pre as [|c pre IH]; intros bef tl H.
  - reflexivity.
  - pose proof (H [] (c :: pre) eq_refl) as H0. cbn [rev app] in H0.
    cbn [app scan_from map]. rewrite H0 by discriminate.
    rewrite IH.
    + cbn [rev]. rewrite <- app_assoc. reflexivity.
    + intros p1 p2 E Hne. specialize (H (c :: p1) p2).
      cbn [rev app] in H. rewrite <- app_assoc in H. apply H.
      * rewrite E. reflexivity.
      * exact Hne.
Qed.

(* ================================================================== *)
(** ** Literal texts and substrings *)
(* ================================================================== *)

Lemma lit_ok (s : str) :
  forall b a g (k : cont),
    m (Lit s) (MState b (s ++ a) g) k = k (MState (rev s ++ b) a g).
Proof.
  induction s as [|c s IH]; intros b a g k.
  - reflexivity.
  - cbn [Lit app]. rewrite m_seq, m_chr_cons.
    unfold is_char. rewrite Ascii.eqb_refl, IH.
    cbn [rev]. rewrite <- app_assoc. reflexivity.
Qed.

Lemma lit_fail (s : str) :
  forall b a g (k : cont),
    starts_with s a = false -> m (Lit s) (MState b a g) k = None.
Proof.
  induction s as [|c s IH]; intros b a g k H.
  - discriminate.
  - cbn [Lit]. rewrite m_seq. destruct a as [|d a].
    + apply m_chr_nil.
    + rewrite m_chr_cons. unfold is_char.
      destruct (Ascii.eqb_spec d c) as [E|E]; [|reflexivity].
      subst d. cbn [starts_with] in H. rewrite Ascii.eqb_refl in H.
      apply IH. exact H.
Qed.

Lemma contains_cons (needle : str) (c : ascii) (hay : str) :
  contains needle (c :: hay)
  = starts_with needle (c :: hay) || contains needle hay.
Proof. reflexivity. Qed.

Lemma contains_false_split (needle : str) (pre : str) :
  forall post,
    contains needle (pre ++ post) = false -> starts_with needle post = false.
Proof.
  induction pre as [|c pre IH]; intros post H.
  - cbn [app] in H. destruct post as [|d post].
    + cbn [contains] in H. apply orb_false_elim in H. apply H.
    + rewrite contains_cons in H. apply orb_false_elim in H. apply H.
  - cbn [app] in H. rewrite contains_cons in H.
    apply orb_false_elim in H. apply IH. apply H.
Qed.



(* ================================================================== *)
(** ** The globs field *)
(* ================================================================== *)







(* ================================================================== *)
(** ** The quoted spans of a clean text *)
(* ================================================================== *)

Lemma plain_true (c : ascii) :
  plain c = true -> Ascii.eqb c DQ = false /\ Ascii.eqb c BSL = false.
Proof.
  unfold plain, not_in. cbn [existsb].
  destruct (Ascii.eqb c DQ), (Ascii.eqb c BSL); simpl; intros H;
    try discriminate; auto.
Qed.

Lemma plain_false (c : ascii) :
  plain c = false -> c = DQ \/ c = BSL.
Proof.
  unfold plain, not_in. cbn [existsb].
  destruct (Ascii.eqb_spec c DQ) as [E|E]; [auto|].
  destruct (Ascii.eqb_spec c BSL) as [E'|E']; [auto|].
  simpl. discriminate.
Qed.

Lemma plain_split (s : str) :
  exists run s2,
    s = run ++ s2 /\ forallb plain run = true
    /\ match s2 with [] => True | c :: _ => plain c = false end.
Proof.
  induction s as [|c s [run [s2 [E [Hr Hs]]]]].
  - exists [], []. auto.
  - destruct (plain c) eqn:Hc.
    + exists (c :: run), s2. cbn [app forallb]. rewrite Hc, Hr, E. auto.
    + exists [], (c :: s). auto.
Qed.

Lemma str_tail_run (run s2 : str) :
  forallb plain run = true -> str_tail (run ++ s2) = str_tail s2.
Proof.
  induction run as [|c run IH]; intros H; [reflexivity|].
  cbn [forallb] in H. apply andb_prop in H. destruct H as [Hc H].
  destruct (plain_true c Hc) as [H1 H2].
  cbn [app str_tail]. rewrite H1, H2. apply IH. exact H.
Qed.

Lemma str_tail_suffix :
  forall len s r,
    length s <= len -> str_tail s = Some r -> exists body, s = body ++ DQ :: r.
Proof.
  induction len as [|len IH]; intros s r Hlen H.
  - destruct s; [discriminate|simpl in Hlen; lia].
  - destruct s as [|c s]; [discriminate|]. cbn [str_tail] in H.
    simpl in Hlen.
    destruct (Ascii.eqb_spec c DQ) as [E|E].
    + inversion H. subst. exists []. reflexivity.
    + destruct (Ascii.eqb c BSL).
      * destruct s as [|e s]; [discriminate|].
        destruct (Ascii.eqb e NL); [discriminate|].
        simpl in Hlen.
        destruct (IH s r ltac:(lia) H) as [body Hb].
        exists (c :: e :: body). rewrite Hb. reflexivity.
      * destruct (IH s r ltac:(lia) H) as [body Hb].
        exists (c :: body). rewrite Hb. reflexivity.
Qed.

(** The loop over the escapes of a literal, from a position where a run
    of plain characters has ended. *)
Lemma string_group_loop :
  forall len s2 r n b g,
    length s2 <= len ->
    str_tail s2 = Some r ->
    match s2 with [] => True | c :: _ => plain c = false end ->
    length s2 <= n ->
    exists sn,
      star_iter
        (m (Seq (Chr (is_char BSL))
                (Seq (Chr dot) (Star (Chr (not_in [DQ; BSL]))))))
        n (MState b s2 g) (fun st => m (Chr (is_char DQ)) st Some)
      = Some (MState sn r g).
Proof.
  induction len as [|len IH]; intros s2 r n b g Hlen Ht Hh Hn.
  - destruct s2; [discriminate|simpl in Hlen; lia].
  - destruct s2 as [|c t]; [discriminate|].
    cbn [str_tail] in Ht. simpl in Hlen.
    destruct (Ascii.eqb_spec c DQ) as [E|E].
    + subst c. inversion Ht. subst t.
      destruct n as [|n].
      * cbn [star_iter]. rewrite m_chr_cons. eexists. reflexivity.
      * rewrite star_iter_S, m_seq, m_chr_cons.
        change (is_char BSL DQ) with false. cbv iota.
        rewrite m_chr_cons. eexists. reflexivity.
    + destruct (Ascii.eqb_spec c BSL) as [E'|E'].
      * subst c. destruct t as [|e s3]; [discriminate|].
        destruct (Ascii.eqb e NL) eqn:En; [discriminate|].
        destruct n as [|n]; [simpl in Hn; lia|].
        destruct (plain_split s3) as [run [s4 [Es [Hrun Hs4]]]].
        subst s3. rewrite str_tail_run in Ht by exact Hrun.
        simpl in Hlen, Hn. rewrite length_app in Hlen, Hn.
        destruct (IH s4 r n (rev run ++ e :: BSL :: b) g
                     ltac:(lia) Ht Hs4 ltac:(lia)) as [sn Hsn].
        exists sn.
        rewrite star_iter_S, m_seq, m_chr_cons.
        change (is_char BSL BSL) with true. cbv iota.
        rewrite m_seq, m_chr_cons. unfold dot at 1. rewrite En.
        cbn [negb]. rewrite m_star. cbn [rest].
        change (not_in [DQ; BSL]) with plain.
        rewrite (star_chr_run plain run (length (run ++ s4))
                   (e :: BSL :: b) s4 g _ (MState sn r g) Hrun Hs4
                   (Nat.le_refl _)); [reflexivity|].
        unfold progress. cbn [rest length].
        replace (length s4 <? S (S (length (run ++ s4)))) with true.
        -- exact Hsn.
        -- symmetry. apply Nat.ltb_lt. rewrite length_app. lia.
      * exfalso. destruct (plain_false c Hh); contradiction.
Qed.

(** At an opening quote whose literal is closed, the pattern matches up
    to the closing quote. *)
Lemma string_match (b s r : str) :
  str_tail s = Some r ->
  exists sn, m string_re (MState b (DQ :: s) []) Some = Some (MState sn r []).
Proof.
  intros Ht. unfold string_re.
  rewrite m_seq, m_chr_cons. change (is_char DQ DQ) with true. cbv iota.
  rewrite m_seq, m_star. cbn [rest].
  destruct (plain_split s) as [run [s2 [Es [Hrun Hs2]]]]. subst s.
  rewrite str_tail_run in Ht by exact Hrun.
  destruct (string_group_loop (length s2) s2 r (length s2)
              (rev run ++ [DQ] ++ b) [] (Nat.le_refl _) Ht Hs2 (Nat.le_refl _))
    as [sn Hsn].
  exists sn.
  change (not_in [DQ; BSL]) with plain.
  apply (star_chr_run plain run); [exact Hrun|exact Hs2|apply Nat.le_refl|].
  rewrite m_seq, m_star. cbn [rest]. exact Hsn.
Qed.

Lemma string_needs_quote (bef aft : str) :
  match aft with [] => True | c :: _ => c <> DQ end ->
  exec string_re bef aft = None.
Proof.
  intros H. unfold exec, string_re. rewrite m_seq.
  destruct aft as [|c aft].
  - rewrite m_chr_nil. reflexivity.
  - rewrite m_chr_cons. unfold is_char.
    destruct (Ascii.eqb_spec c DQ) as [E|E]; [contradiction|reflexivity].
Qed.

Lemma clean_inside :
  forall len s,
    length s <= len -> clean_json true s = true ->
    exists r, str_tail s = Some r /\ clean_json false r = true.
Proof.
  induction len as [|len IH]; intros s Hlen H.
  - destruct s; [discriminate|simpl in Hlen; lia].
  - destruct s as [|c s]; [discriminate|].
    cbn [clean_json str_tail] in *. simpl in Hlen.
    destruct (Ascii.eqb c DQ).
    + exists s. auto.
    + destruct (Ascii.eqb c BSL).
      * destruct s as [|e s]; [discriminate|].
        destruct (Ascii.eqb e NL); [discriminate|].
        simpl in Hlen. apply IH; [lia|exact H].
      * apply IH; [lia|exact H].
Qed.

(** The scan of a clean text for quoted spans leaves no slash outside
    the spans. *)
Lemma clean_scan_slash_free :
  forall len x bef,
    length x <= len -> clean_json false x = true ->
    Forall slash_free (scan_from string_re 0 bef x).
Proof.
  induction len as [|len IH]; intros x bef Hlen Hc.
  - destruct x; [|simpl in Hlen; lia].
    cbn [scan_from]. rewrite string_needs_quote by exact I. constructor.
  - destruct x as [|c x].
    + cbn [scan_from]. rewrite string_needs_quote by exact I. constructor.
    + cbn [clean_json] in Hc. simpl in Hlen.
      destruct (Ascii.eqb_spec c DQ) as [E|E].
      * subst c.
        destruct (clean_inside (length x) x (Nat.le_refl _) Hc)
          as [r [Ht Hr]].
        destruct (str_tail_suffix (length x) x r (Nat.le_refl _) Ht)
          as [body Hb].
        destruct (string_match bef x r Ht) as [sn Hm].
        assert (Ex : DQ :: x = (DQ :: body ++ [DQ]) ++ r).
        { rewrite Hb. cbn [app]. rewrite <- app_assoc. reflexivity. }
        rewrite Ex in Hm |- *.
        rewrite (scan_match string_re bef (DQ :: body ++ [DQ]) r
                   (MState sn r []) ltac:(discriminate) Hm eq_refl).
        constructor; [exact I|].
        apply IH; [|exact Hr].
        rewrite Hb, length_app in Hlen. simpl in Hlen. lia.
      * destruct (Ascii.eqb_spec c "/") as [E'|E']; [discriminate|].
        cbn [scan_from].
        rewrite string_needs_quote by exact E.
        constructor; [exact E'|].
        apply IH; [lia|exact Hc].
Qed.

Lemma replace_strings_slash_free (xs : list (ascii + mobj ascii)) :
  forall n,
    Forall slash_free xs ->
    Forall (fun t => tok_is "/" t = false) (fst (replace_strings xs n)).
Proof.
  induction xs as [|x xs IH]; intros n H.
  - constructor.
  - inversion H as [|x' xs' Hx Hxs]. subst.
    destruct x as [c|mo]; cbn [replace_strings].
    + specialize (IH n Hxs).
      destruct (replace_strings xs n) as [content table].
      cbn [fst] in *. constructor; [|exact IH].
      cbn [tok_is]. apply Ascii.eqb_neq. exact Hx.
    + specialize (IH (S n) Hxs).
      destruct (replace_strings xs (S n)) as [content table].
      cbn [fst] in *. constructor; [reflexivity|exact IH].
Qed.

(** A pattern that begins with a slash changes nothing in a content
    without slash. *)
Lemma sub_without_slash (r : regex tok) (f : mobj tok -> list tok)
      (content : list tok) :
  Forall (fun t => tok_is "/" t = false) content ->
  sub (Seq (Chr (tok_is "/")) r) f content = content.
Proof.
  intros H. unfold sub, scan. rewrite scan_no_match.
  - apply flat_map_inl.
  - intros pre post E. unfold exec. rewrite m_seq.
    destruct post as [|t post].
    + rewrite m_chr_nil. reflexivity.
    + rewrite m_chr_cons.
      rewrite E in H. apply Forall_app in H. destruct H as [_ H].
      inversion H as [|t' p' Ht _]. rewrite Ht. reflexivity.
Qed.

(* ================================================================== *)
(** ** Restoring the quoted spans *)
(* ================================================================== *)

Lemma flat_map_restore_chars (ph : nat -> str) (table : placeholders)
      (s : str) :
  flat_map (restore_text ph table) (map Ch s) = s.
Proof.
  induction s as [|c s IH]; simpl; [|rewrite IH]; reflexivity.
Qed.

Lemma replace_placeholder_text (ph : nat -> str) (i : nat) (original : str)
      (table : placeholders) (content : list tok) :
  flat_map (restore_text ph table) (replace_placeholder i original content)
  = flat_map (restore_text ph ((i, original) :: table)) content.
Proof.
  unfold replace_placeholder.
  induction content as [|t content IH]; [reflexivity|].
  cbn [flat_map]. rewrite flat_map_app, IH. f_equal.
  destruct t as [c|j]; [reflexivity|].
  cbn [restore_text lookup_group]. rewrite (Nat.eqb_sym i j).
  destruct (Nat.eqb j i).
  - apply flat_map_restore_chars.
  - cbn [flat_map restore_text]. apply app_nil_r.
Qed.

Lemma restore_strings_text (ph : nat -> str) (table : placeholders) :
  forall content,
    flat_map (tok_text ph) (restore_strings table content)
    = flat_map (restore_text ph table) content.
Proof.
  induction table as [|[i original] table IH]; intros content.
  - cbn [restore_strings fold_left].
    apply flat_map_ext. intros [c|j]; reflexivity.
  - unfold restore_strings in *. cbn [fold_left fst snd].
    rewrite IH. apply replace_placeholder_text.
Qed.

Lemma replace_strings_indices (xs : list (ascii + mobj ascii)) :
  forall n, Forall (index_from n) (fst (replace_strings xs n)).
Proof.
  induction xs as [|x xs IH]; intros n; [constructor|].
  destruct x as [c|mo]; cbn [replace_strings].
  - specialize (IH n). destruct (replace_strings xs n) as [content table].
    cbn [fst] in *. constructor; [exact I|exact IH].
  - specialize (IH (S n)).
    destruct (replace_strings xs (S n)) as [content table].
    cbn [fst] in *. constructor; [apply Nat.le_refl|].
    revert IH. apply Forall_impl. intros [c|j]; cbn [index_from]; [auto|lia].
Qed.

Lemma restore_text_later (ph : nat -> str) (n : nat) (original : str)
      (table : placeholders) (content : list tok) :
  Forall (index_from (S n)) content ->
  flat_map (restore_text ph ((n, original) :: table)) content
  = flat_map (restore_text ph table) content.
Proof.
  induction 1 as [|t content Ht _ IH]; [reflexivity|].
  cbn [flat_map]. rewrite IH. f_equal.
  destruct t as [c|j]; [reflexivity|].
  cbn [index_from] in Ht. cbn [restore_text lookup_group].
  replace (Nat.eqb n j) with false; [reflexivity|].
  symmetry. apply Nat.eqb_neq. lia.
Qed.

(** The protected content, with each placeholder read as the span
    recorded under it, is the scanned text. *)
Lemma replace_strings_text (ph : nat -> str)
      (xs : list (ascii + mobj ascii)) :
  forall n,
    flat_map (restore_text ph (snd (replace_strings xs n)))
             (fst (replace_strings xs n))
    = flat_map piece_text xs.
Proof.
  induction xs as [|x xs IH]; intros n; [reflexivity|].
  destruct x as [c|mo]; cbn [replace_strings].
  - specialize (IH n). destruct (replace_strings xs n) as [content table].
    cbn [fst snd] in *. cbn [flat_map restore_text piece_text].
    rewrite IH. reflexivity.
  - specialize (IH (S n)).
    pose proof (replace_strings_indices xs (S n)) as Hi.
    destruct (replace_strings xs (S n)) as [content table].
    cbn [fst snd] in *. cbn [flat_map piece_text].
    rewrite restore_text_later by exact Hi. rewrite IH.
    cbn [restore_text lookup_group]. rewrite Nat.eqb_refl. reflexivity.
Qed.

Lemma protect_strings_text (ph : nat -> str) (x : str) :
  flat_map (restore_text ph (snd (protect_strings x)))
           (fst (protect_strings x)) = x.
Proof.
  unfold protect_strings. rewrite replace_strings_text.
  unfold scan. apply (scan_text string_re x 0 []).
Qed.

(* ================================================================== *)
(** ** Comment stripping *)
(* ================================================================== *)

Lemma subseq_refl {A : Type} (l : list A) : subseq l l.
Proof.
  induction l as [|x l IH]; [apply subseq_nil|apply subseq_keep; exact IH].
Qed.

Lemma subseq_trans {A : Type} (l2 l3 : list A) :
  subseq l2 l3 -> forall l1, subseq l1 l2 -> subseq l1 l3.
Proof.
  induction 1 as [|x l2 l3 H IH|x l2 l3 H IH]; intros l1 H1.
  - exact H1.
  - apply subseq_skip. apply IH. exact H1.
  - inversion H1 as [|y a b Ha|y a b Ha]; subst.
    + apply subseq_skip. apply IH. exact Ha.
    + apply subseq_keep. apply IH. exact Ha.
Qed.

(** Replacing every match by the empty text only leaves symbols out. *)
Lemma scan_delete_subseq {A : Type} (r : regex A) (aft : list A) :
  forall skip bef,
    subseq (flat_map (fun x : A + mobj A => match x with
                                            | inl c => [c]
                                            | inr _ => []
                                            end)
                     (scan_from r skip bef aft)) aft.
Proof.
  induction aft as [|c tl IH]; intros skip bef; cbn [scan_from].
  - destruct skip as [|n]; [|apply subseq_nil].
    destruct (exec r bef []); apply subseq_nil.
  - destruct skip as [|n].
    + destruct (exec r bef (c :: tl)) as [mo|].
      * destruct (length (m_text mo)) as [|n]; cbn [flat_map app].
        -- apply subseq_keep. apply IH.
        -- apply subseq_skip. apply IH.
      * cbn [flat_map app]. apply subseq_keep. apply IH.
    + apply subseq_skip. apply IH.
Qed.

Lemma remove_comments_subseq (content : list tok) :
  subseq (remove_line_comments (remove_block_comments content)) content.
Proof.
  apply (subseq_trans (remove_block_comments content)).
  - apply scan_delete_subseq.
  - apply scan_delete_subseq.
Qed.

Lemma strip_comments_unfold (ph : nat -> str) (x : str) :
  strip_comments ph x
  = flat_map (restore_text ph (snd (protect_strings x)))
             (remove_line_comments
                (remove_block_comments (fst (protect_strings x)))).
Proof.
  unfold strip_comments.
  destruct (protect_strings x) as [content table]. cbn [fst snd].
  apply restore_strings_text.
Qed.

Lemma strip_comments_clean (ph : nat -> str) (x : str) :
  clean_json false x = true -> strip_comments ph x = x.
Proof.
  intros Hc. rewrite strip_comments_unfold.
  assert (Hs : Forall (fun t => tok_is "/" t = false)
                      (fst (protect_strings x))).
  { unfold protect_strings. apply replace_strings_slash_free.
    unfold scan. apply (clean_scan_slash_free (length x)); auto. }
  unfold remove_block_comments, block_comment_re.
  rewrite sub_without_slash by exact Hs.
  unfold remove_line_comments, line_comment_re.
  rewrite sub_without_slash by exact Hs.
  apply protect_strings_text.
Qed.

(** Comment stripping on clean text and on located spans.  On clean JSON
    text (closed string literals and no slash between them) comment
    stripping changes nothing, which makes it idempotent there and leaves
    literals that hold [//] or a comment opening as they are.  On every
    input, the quoted spans the string pattern locates, put back, give
    the input; and the result is the input with characters and whole
    located spans left out: a located span is never cut and what it holds
    never opens a comment. *)
Theorem comment_stripping_keeps_spans (ph : nat -> str) (x : str) :
  (clean_json false x = true -> strip_comments ph x = x)
  /\ (clean_json false x = true ->
      strip_comments ph (strip_comments ph x) = strip_comments ph x)
  /\ flat_map (restore_text ph (snd (protect_strings x)))
              (fst (protect_strings x)) = x
  /\ exists kept,
       subseq kept (fst (protect_strings x))
       /\ strip_comments ph x
          = flat_map (restore_text ph (snd (protect_strings x))) kept.
Proof.
  split; [apply strip_comments_clean|].
  split.
  { intros Hc. rewrite !(strip_comments_clean ph x Hc). reflexivity. }
  split; [apply protect_strings_text|].
  exists (remove_line_comments
            (remove_block_comments (fst (protect_strings x)))).
  split; [apply remove_comments_subseq|apply strip_comments_unfold].
Qed.

(** A clean text whose literals hold [//] and a whole comment. *)
Lemma clean_text_example :
  strip_comments (fun _ => [])
                 (txt "{'url': 'http://x/*y*/', 'a': ['\'//', 2]}")
  = txt "{'url': 'http://x/*y*/', 'a': ['\'//', 2]}".
Proof.
  apply (proj1 (comment_stripping_keeps_spans
                  (fun _ => [])
                  (txt "{'url': 'http://x/*y*/', 'a': ['\'//', 2]}"))).
  vm_compute. reflexivity.
Defined.

(** Comments around literals: the comments go, the literals stay. *)
Example comments_removed_example :
  strip_comments (fun _ => [])
                 (txt "{'u': 'a//b', /* c 'd' */ 'v': '/*' // z~}")
  = txt "{'u': 'a//b',  'v': '/*' ~}".
Proof. vm_compute. reflexivity. Qed.

(** C6 at two texts whose comment holds a double quote.  The string
    pattern pairs that quote with the opening quote of the next literal,
    so the literals of the configuration are not the spans it protects:
    in the first text the literal ['a//b'] is cut at its [//] and the
    comment stays; in the second the whole configuration goes with the
    line comment. *)
Theorem quote_in_comment_alters_literal :
  contains (txt "'a//b'") (txt "/* ' */ {'u': 'a//b'}") = true
  /\ strip_comments (fun _ => []) (txt "/* ' */ {'u': 'a//b'}")
     = txt "/* ' */ {'u': 'a"
  /\ contains (txt "'a//b'")
              (strip_comments (fun _ => []) (txt "/* ' */ {'u': 'a//b'}"))
     = false
  /\ strip_comments (fun _ => []) (txt "// 5' wide~{'u': 'a//b'}") = [].
Proof. vm_compute. repeat split. Qed.

(* ================================================================== *)
(** ** Documents without a heading *)
(* ================================================================== *)

Lemma heading_needs_mark (bef aft : str) :
  match aft with [] => True | c :: _ => c <> "#"%char end ->
  exec heading_re bef aft = None.
Proof.
  intros H. unfold exec, heading_re, Bol, Plus.
  rewrite m_seq.
  change (m (Look ?a) ?st ?k)
    with (if a (seen st) (rest st) then k st else None).
  cbn [seen rest].
  destruct (match bef with [] => true | c :: _ => Ascii.eqb c NL end);
    [|reflexivity].
  rewrite m_seq, m_group, m_seq, m_seq.
  destruct aft as [|c aft].
  - rewrite m_chr_nil. reflexivity.
  - rewrite m_chr_cons. unfold is_char.
    destruct (Ascii.eqb_spec c "#") as [E|E]; [contradiction|reflexivity].
Qed.

Lemma split_pieces_chars {A : Type} (s : list A) :
  forall cur, split_pieces cur (map inl s) = [rev cur ++ s].
Proof.
  induction s as [|c s IH]; intros cur; cbn [map split_pieces].
  - rewrite app_nil_r. reflexivity.
  - rewrite IH. cbn [rev]. rewrite <- app_assoc. reflexivity.
Qed.

(** A document in which no [#] occurs has no section at all: its text,
    which lies before any heading, is stored under no key. *)
Theorem text_without_heading_is_dropped (content : str)
        (Hno : ~ In "#"%char content) :
  split heading_re content = [content]
  /\ parse_sections content = [].
Proof.
  assert (Hs : split heading_re content = [content]).
  { unfold split, scan. rewrite scan_no_match.
    - apply (split_pieces_chars content []).
    - intros pre post E. apply heading_needs_mark.
      destruct post as [|c post]; [exact I|].
      intros Ec. apply Hno. rewrite E. apply in_or_app. right. left.
      exact Ec. }
  split; [exact Hs|].
  unfold parse_sections. rewrite Hs. reflexivity.
Qed.

Lemma text_without_heading_example :
  parse_sections (txt "Rules for the project.~No heading here.") = [].
Proof.
  apply (text_without_heading_is_dropped
           (txt "Rules for the project.~No heading here.")).
  vm_compute. intros H.
  repeat (destruct H as [H|H]; [discriminate|]). exact H.
Defined.

(* ================================================================== *)
(** ** What a violation holds, and how rule lists compose *)
(* ================================================================== *)

Lemma check_rule_fields (env : Env) (r : Rule) (v : value) (file : string)
      (viol : Violation) :
  check_rule env r v file = Some viol ->
  rule viol = r /\ config_file viol = file /\ actual_value viol = v
  /\ v_fix_suggestion viol = fix_suggestion r.
Proof.
  unfold check_rule, violation_of.
  destruct (type r); destruct (is_not_none (expected_value r));
    try destruct (py_ne v (expected_value r));
    try destruct (validator r) as [f|]; try destruct (negb (f v));
    try destruct (py_eq v (forbidden_value r));
    intros H; inversion H; auto.
Qed.

Lemma check_rule_satisfied (env : Env) (config : value) (file : string)
      (r : Rule) :
  check_rule env r (resolve config (path r)) file = None
  <-> rule_satisfied config r.
Proof.
  split; [|apply satisfied_not_violates].
  unfold rule_satisfied, check_rule, py_ne.
  destruct (type r); destruct (is_not_none (expected_value r));
    try destruct (validator r) as [f|];
    try destruct (f (resolve config (path r)));
    try destruct (py_eq (resolve config (path r)) (expected_value r));
    try destruct (py_eq (resolve config (path r)) (forbidden_value r));
    simpl; intros H; try reflexivity; try exact I; discriminate.
Qed.

Lemma evaluate_ok_inv (env : Env) (rules : list Rule) (config_path : string)
      (config : value) (vs : list Violation) (ps : list Rule) :
  load_config env config_path = Ok config ->
  evaluate env rules config_path = Ok (vs, ps) ->
  exists is_refs,
    is_references_config config = Ok is_refs
    /\ vs = violations_of env config config_path (kept_rules is_refs rules)
    /\ ps = filter (fun r => negb (violates env config config_path r))
                   (kept_rules is_refs rules).
Proof.
  intros Hload. unfold evaluate. rewrite Hload.
  destruct (is_references_config config) as [b|e] eqn:Hb.
  - rewrite (evaluate_config_spec env rules config config_path b Hb).
    intros H. inversion H. exists b. auto.
  - unfold evaluate_config. rewrite Hb. discriminate.
Qed.

Lemma violations_of_fields (env : Env) (config : value) (file : string)
      (rules : list Rule) (v : Violation) :
  In v (violations_of env config file rules) ->
  In (rule v) rules
  /\ check_rule env (rule v) (resolve config (path (rule v))) file = Some v.
Proof.
  unfold violations_of. intros H. apply in_flat_map in H.
  destruct H as [r [Hr Hv]].
  destruct (check_rule env r (resolve config (path r)) file) as [w|] eqn:E;
    [|destruct Hv].
  destruct Hv as [Hv|[]]. subst w.
  destruct (check_rule_fields env r _ file v E) as [Hrule _].
  rewrite Hrule. auto.
Qed.

(** What [evaluate] returns for a file that loads.  Every violation is
    that of a rule of the list which the configuration does not satisfy;
    it names the file, holds the value found at the rule's path ([None]
    when absent) and repeats the rule's fix suggestion.  Every passed
    rule is a rule of the list that the configuration satisfies. *)
Theorem violations_describe_rules (env : Env) (rules : list Rule)
        (config_path : string) (config : value)
        (vs : list Violation) (ps : list Rule)
        (Hload : load_config env config_path = Ok config)
        (Hev : evaluate env rules config_path = Ok (vs, ps)) :
  Forall (fun v =>
            In (rule v) rules
            /\ ~ rule_satisfied config (rule v)
            /\ config_file v = config_path
            /\ actual_value v = resolve config (path (rule v))
            /\ v_fix_suggestion v = fix_suggestion (rule v)) vs
  /\ Forall (fun r => In r rules /\ rule_satisfied config r) ps.
Proof.
  destruct (evaluate_ok_inv env rules config_path config vs ps Hload Hev)
    as [b [_ [Hvs Hps]]].
  split.
  - apply Forall_forall. intros v Hin. rewrite Hvs in Hin.
    destruct (violations_of_fields env config config_path _ v Hin)
      as [Hr Hc].
    destruct (check_rule_fields env _ _ _ _ Hc) as [_ [Hf [Ha Hs]]].
    split.
    { unfold kept_rules in Hr. apply filter_In in Hr. apply Hr. }
    split.
    { intros Hsat. apply (check_rule_satisfied env config config_path) in Hsat.
      rewrite Hsat in Hc. discriminate. }
    auto.
  - apply Forall_forall. intros r Hin. rewrite Hps in Hin.
    apply filter_In in Hin. destruct Hin as [Hk Hv].
    split.
    { unfold kept_rules in Hk. apply filter_In in Hk. apply Hk. }
    apply (check_rule_satisfied env config config_path).
    unfold violates in Hv.
    destruct (check_rule env r (resolve config (path r)) config_path);
      [discriminate|reflexivity].
Qed.

Lemma violations_of_app (env : Env) (config : value) (file : string)
      (r1 r2 : list Rule) :
  violations_of env config file (r1 ++ r2)
  = violations_of env config file r1 ++ violations_of env config file r2.
Proof. unfold violations_of. apply flat_map_app. Qed.

(** Evaluating two rule lists put end to end is evaluating each and
    putting the results end to end: a rule's outcome does not depend on
    the rules around it, and a rule that occurs twice is counted twice. *)
Theorem evaluation_of_appended_rules (env : Env) (r1 r2 : list Rule)
        (config : value) (file : string) :
  evaluate_config env (r1 ++ r2) config file
  = (a <- evaluate_config env r1 config file ;;
     b <- evaluate_config env r2 config file ;;
     Ok (fst a ++ fst b, snd a ++ snd b)).
Proof.
  destruct (is_references_config config) as [is_refs|e] eqn:Hb.
  - rewrite !(evaluate_config_spec env _ config file is_refs Hb).
    cbn [bind fst snd]. unfold kept_rules.
    rewrite filter_app, violations_of_app, filter_app. reflexivity.
  - unfold evaluate_config. rewrite Hb. reflexivity.
Qed.

(* ================================================================== *)
(** ** The extracted rule list *)
(* ================================================================== *)

Lemma flat_map_length_le {A B : Type} (f : A -> list B) (k : nat)
      (l : list A) :
  (forall x, length (f x) <= k) -> length (flat_map f l) <= k * length l.
Proof.
  intros H. induction l as [|x l IH]; [simpl; lia|].
  cbn [flat_map]. rewrite length_app. specialize (H x). simpl length. lia.
Qed.

Lemma typescript_rules_well_formed (doc : MDCDocument) :
  Forall well_formed_rule (extract_typescript_rules doc)
  /\ length (extract_typescript_rules doc) <= 2.
Proof.
  unfold extract_typescript_rules.
  destruct (dict_get "Typescript guidelines" (sections doc)) as [content|];
    [|split; [constructor|simpl; lia]].
  destruct (contains (s2l "Be strict with types") content);
    destruct (contains (s2l "@types/node") content);
    (split; [|simpl; lia]); cbn [app];
    repeat (constructor; [solve_well_formed|]); constructor.
Qed.

Lemma convex_rules_well_formed (env : Env) :
  Forall well_formed_rule (extract_convex_typescript_rules env).
Proof.
  unfold extract_convex_typescript_rules, required_convex_opts.
  cbn [map app].
  repeat (constructor; [solve_well_formed|]). constructor.
Qed.

Lemma example_rules_well_formed (env : Env) (doc : MDCDocument) :
  Forall well_formed_rule (extract_example_config_rules env doc)
  /\ length (extract_example_config_rules env doc)
     <= 2 * length (code_blocks doc).
Proof.
  unfold extract_example_config_rules. split.
  - apply Forall_flat_map. apply Forall_forall.
    intros [language code] _.
    destruct (in_str env "tsconfig.json" _); [|constructor].
    destruct (contains skip_lib_check_line (s2l code));
      destruct (contains synthetic_imports_line (s2l code)); cbn [app];
      repeat (constructor; [solve_well_formed|]); constructor.
  - apply flat_map_length_le. intros [language code].
    destruct (in_str env "tsconfig.json" _); [|simpl; lia].
    destruct (contains skip_lib_check_line (s2l code));
      destruct (contains synthetic_imports_line (s2l code)); simpl; lia.
Qed.

(** The extracted list, for every document.  Each rule is well formed in
    the sense of the data model (an expected value or a validator, never
    both, never a forbidden value); the nine rules the platform requires
    are always there, in one order and under fixed ids, after at most two
    rules from the guidelines and before at most two rules per code
    block. *)
Theorem extracted_rules_well_formed (env : Env) (doc : MDCDocument) :
  Forall well_formed_rule (extract_rules env doc)
  /\ (exists pre post,
         extract_rules env doc
         = pre ++ extract_convex_typescript_rules env ++ post
         /\ length pre <= 2
         /\ length post <= 2 * length (code_blocks doc))
  /\ map id (extract_convex_typescript_rules env) = platform_rule_ids
  /\ 9 <= length (extract_rules env doc)
     <= 11 + 2 * length (code_blocks doc).
Proof.
  destruct (typescript_rules_well_formed doc) as [Ht Hlt].
  destruct (example_rules_well_formed env doc) as [He Hle].
  split.
  { unfold extract_rules. apply Forall_app. split; [exact Ht|].
    apply Forall_app. split; [apply convex_rules_well_formed|exact He]. }
  split.
  { exists (extract_typescript_rules doc),
           (extract_example_config_rules env doc). auto. }
  split; [reflexivity|].
  unfold extract_rules. rewrite !length_app.
  assert (Hc : length (extract_convex_typescript_rules env) = 9)
    by reflexivity.
  lia.
Qed.

(* ================================================================== *)
(** ** The strict-mode rule *)
(* ================================================================== *)

Lemma violations_with_other_ids (env : Env) (config : value) (file : string)
      (s : string) (rules : list Rule) :
  Forall (fun r => String.eqb (id r) s = false) rules ->
  filter (fun v => String.eqb (id (rule v)) s)
         (violations_of env config file rules) = [].
Proof.
  induction 1 as [|r rules Hr _ IH]; [reflexivity|].
  unfold violations_of in *. cbn [flat_map]. rewrite filter_app, IH.
  destruct (check_rule env r (resolve config (path r)) file) as [v|] eqn:E;
    [|reflexivity].
  cbn [filter]. rewrite (check_rule_rule env r _ file v E), Hr. reflexivity.
Qed.

Lemma example_rules_ids (env : Env) (doc : MDCDocument) :
  Forall (fun r => String.eqb (id r) "ts-strict-types" = false)
         (extract_example_config_rules env doc).
Proof.
  unfold extract_example_config_rules.
  apply Forall_flat_map. apply Forall_forall. intros [language code] _.
  destruct (in_str env "tsconfig.json" _); [|constructor].
  destruct (contains skip_lib_check_line (s2l code));
    destruct (contains synthetic_imports_line (s2l code)); cbn [app];
    repeat (constructor; [reflexivity|]); constructor.
Qed.

Lemma strict_rule_first (doc : MDCDocument) (content : str) :
  dict_get "Typescript guidelines" (sections doc) = Some content ->
  contains (s2l "Be strict with types") content = true ->
  exists others,
    extract_typescript_rules doc
    = MkRule "ts-strict-types" "TypeScript strict mode should be enabled"
             REQUIRED ERROR ["compilerOptions"; "strict"]
             (VBool true) VNone None
             (Some "Set 'strict': true in compilerOptions") :: others
    /\ Forall (fun r => String.eqb (id r) "ts-strict-types" = false) others.
Proof.
  intros Hs Hc. unfold extract_typescript_rules. rewrite Hs, Hc.
  destruct (contains (s2l "@types/node") content); eexists;
    (split; [reflexivity|]); repeat (constructor; [reflexivity|]);
    constructor.
Qed.

(** A rules document that asks for strict types, against a configuration
    file with a [compilerOptions] entry in which [strict] does not equal
    [True]: exactly one violation bears the id of the strict-mode rule,
    its severity is Error, it holds the value found for [strict], and the
    reporter fails the file. *)
Theorem strict_mode_violation (env : Env) (doc : MDCDocument) (content : str)
        (config_path : string) (d : dict value) (opts : value)
        (Hsec : dict_get "Typescript guidelines" (sections doc)
                = Some content)
        (Hask : contains (s2l "Be strict with types") content = true)
        (Hload : load_config env config_path = Ok (VDict d))
        (Hopts : dict_get "compilerOptions" d = Some opts)
        (Hoff : py_eq (resolve (VDict d) ["compilerOptions"; "strict"])
                      (VBool true) = false) :
  exists vs ps v,
    evaluate env (extract_rules env doc) config_path = Ok (vs, ps)
    /\ filter (fun w => String.eqb (id (rule w)) "ts-strict-types") vs = [v]
    /\ severity (rule v) = ERROR
    /\ actual_value v = resolve (VDict d) ["compilerOptions"; "strict"]
    /\ report config_path vs ps = false.
Proof.
  assert (Hr : is_references_config (VDict d) = Ok false).
  { unfold is_references_config. simpl. unfold dict_mem. rewrite Hopts.
    destruct (dict_get "references" d); reflexivity. }
  destruct (strict_rule_first doc content Hsec Hask) as [others [Ht Ho]].
  eexists. eexists. eexists.
  split.
  { unfold evaluate. rewrite Hload.
    apply (evaluate_config_spec env _ (VDict d) config_path false Hr). }
  rewrite kept_rules_false. unfold extract_rules.
  rewrite Ht. cbn [app].
  assert (Hv : violations_of env (VDict d) config_path
                 (MkRule "ts-strict-types"
                    "TypeScript strict mode should be enabled"
                    REQUIRED ERROR ["compilerOptions"; "strict"]
                    (VBool true) VNone None
                    (Some "Set 'strict': true in compilerOptions")
                  :: others ++ extract_convex_typescript_rules env
                     ++ extract_example_config_rules env doc)
               = violation_of
                   (MkRule "ts-strict-types"
                      "TypeScript strict mode should be enabled"
                      REQUIRED ERROR ["compilerOptions"; "strict"]
                      (VBool true) VNone None
                      (Some "Set 'strict': true in compilerOptions"))
                   config_path
                   (resolve (VDict d) ["compilerOptions"; "strict"])
                   ("TypeScript strict mode should be enabled"
                    ++ ". Expected: " ++ py_str env (VBool true)
                    ++ ", Got: "
                    ++ py_str env
                         (resolve (VDict d) ["compilerOptions"; "strict"]))%string
                 :: violations_of env (VDict d) config_path
                      (others ++ extract_convex_typescript_rules env
                       ++ extract_example_config_rules env doc)).
  { unfold violations_of at 1. cbn [flat_map].
    unfold check_rule at 1. cbn [type expected_value is_not_none path].
    unfold py_ne. rewrite Hoff. reflexivity. }
  rewrite Hv.
  split.
  { cbn [filter rule violation_of id]. cbn [String.eqb Ascii.eqb Bool.eqb].
    f_equal. apply violations_with_other_ids.
    apply Forall_app. split; [exact Ho|].
    apply Forall_app. split; [|apply example_rules_ids].
    unfold extract_convex_typescript_rules, required_convex_opts.
    cbn [map app]. repeat (constructor; [reflexivity|]). constructor. }
  split; [reflexivity|]. split; [reflexivity|].
  rewrite report_verdict. reflexivity.
Qed.

Lemma lax_config_loads :
  load_config (example_env lax_files) "tsconfig.json" = Ok (VDict lax_config).
Proof. vm_compute. reflexivity. Qed.

(** A configuration with [strict] set to false, against the document
    that asks for strict types. *)
Lemma strict_mode_example :
  exists vs ps v,
    evaluate (example_env lax_files)
             (extract_rules (example_env lax_files) strict_doc)
             "tsconfig.json" = Ok (vs, ps)
    /\ filter (fun w => String.eqb (id (rule w)) "ts-strict-types") vs = [v]
    /\ severity (rule v) = ERROR
    /\ actual_value v = VBool false
    /\ report "tsconfig.json" vs ps = false.
Proof.
  exact (strict_mode_violation (example_env lax_files) strict_doc
           (s2l "- Be strict with types") "tsconfig.json" lax_config
           (VDict [("strict", VBool false); ("target", VStr "ESNext")])
           eq_refl eq_refl lax_config_loads eq_refl eq_refl).
Defined.

(** The violations and the passed rules of the file with a warning and an
    information describe the rules they come from. *)
Lemma violations_describe_rules_example :
  Forall (fun v => config_file v = "tsconfig.node.json"
                   /\ actual_value v = resolve warned_config (path (rule v)))
         (violations_of (example_env example_files) warned_config
            "tsconfig.node.json"
            (extract_rules (example_env example_files) example_doc))
  /\ Forall (rule_satisfied warned_config)
            (filter (fun r => negb (violates (example_env example_files)
                                      warned_config "tsconfig.node.json" r))
               (extract_rules (example_env example_files) example_doc)).
Proof.
  assert (He : evaluate (example_env example_files)
                 (extract_rules (example_env example_files) example_doc)
                 "tsconfig.node.json"
               = Ok (violations_of (example_env example_files) warned_config
                       "tsconfig.node.json"
                       (extract_rules (example_env example_files) example_doc),
                     filter (fun r => negb (violates
                                              (example_env example_files)
                                              warned_config
                                              "tsconfig.node.json" r))
                       (extract_rules (example_env example_files)
                          example_doc)))
    by (vm_compute; reflexivity).
  destruct (violations_describe_rules
              (example_env example_files)
              (extract_rules (example_env example_files) example_doc)
              "tsconfig.node.json" warned_config _ _
              example_load_warned He) as [Hv Hp].
  split.
  - revert Hv. apply Forall_impl. intros v [_ [_ [Hf [Ha _]]]]. auto.
  - revert Hp. apply Forall_impl. intros r [_ H]. exact H.
Defined.

(* ================================================================== *)
(** ** Finding the rules file and the configuration files *)
(* ================================================================== *)

Lemma find_first {A : Type} (p : A -> bool) (l : list A) :
  match find p l with
  | Some x =>
      exists before after,
        l = before ++ x :: after /\ p x = true
        /\ Forall (fun y => p y = false) before
  | None => Forall (fun y => p y = false) l
  end.
Proof.
  induction l as [|y l IH]; cbn [find]; [constructor|].
  destruct (p y) eqn:Hy.
  - exists [], l. repeat split; [exact Hy|constructor].
  - destruct (find p l) as [x|].
    + destruct IH as [before [after [E [Hx Hb]]]].
      exists (y :: before), after. rewrite E.
      repeat split; [exact Hx|constructor; assumption].
    + constructor; assumption.
Qed.

(** The rules file found is the first of the seven locations that
    exists, those of the project before those of the home directory and
    [/etc]; nothing is found exactly when none of them exists; and a
    [convex_rules.mdc] in the project directory is chosen whatever else
    exists. *)
Theorem first_existing_rules_file (sys : Sys) (project_dir : fpath) :
  match find_rules_file sys project_dir with
  | Some p =>
      exists before after,
        search_locations (sys_home sys) project_dir = before ++ p :: after
        /\ sys_exists sys p = true
        /\ Forall (fun q => sys_exists sys q = false) before
  | None =>
      Forall (fun q => sys_exists sys q = false)
             (search_locations (sys_home sys) project_dir)
  end
  /\ (sys_exists sys (project_dir ++ ["convex_rules.mdc"]) = true ->
      find_rules_file sys project_dir
      = Some (project_dir ++ ["convex_rules.mdc"])).
Proof.
  split; [apply find_first|].
  intros H. unfold find_rules_file, search_locations. cbn [find].
  rewrite H. reflexivity.
Qed.

Lemma fpath_eqb_eq (a b : fpath) : fpath_eqb a b = true <-> a = b.
Proof.
  unfold fpath_eqb. destruct (list_eq_dec string_dec a b); split; intros H;
    try reflexivity; try assumption; try discriminate; contradiction.
Qed.

Lemma already_listed_in (p : fpath) (configs : list (string * fpath)) :
  already_listed p configs = true <-> In p (map snd configs).
Proof.
  unfold already_listed. rewrite existsb_exists, in_map_iff.
  split.
  - intros [c [Hin He]]. apply fpath_eqb_eq in He. exists c. auto.
  - intros [c [He Hin]]. exists c. split; [exact Hin|].
    apply fpath_eqb_eq. auto.
Qed.

Lemma standard_configs_distinct (project_dir : fpath) :
  NoDup (map snd (standard_configs project_dir)).
Proof.
  unfold standard_configs. cbn [map snd].
  repeat (constructor;
          [cbn [In]; intros H;
           repeat (destruct H as [H|H];
                   [apply app_inv_head in H; discriminate|]);
           exact H|]).
  constructor.
Qed.

(** Dropping configuration files from a list of distinct paths leaves
    distinct paths. *)
Lemma kept_configs_distinct (keep : string * fpath -> bool)
      (configs : list (string * fpath))
      (Hnd : NoDup (map snd configs)) :
  NoDup (map snd (filter keep configs)).
Proof.
  induction configs as [|c configs IH]; cbn [map filter]; [constructor|].
  inversion Hnd as [|y ys Hn Hd]. subst.
  destruct (keep c); [|apply IH; exact Hd].
  cbn [map]. constructor; [|apply IH; exact Hd].
  intros Hin. apply Hn. apply in_map_iff in Hin.
  destruct Hin as [z [Hz Hin]]. apply filter_In in Hin.
  apply in_map_iff. exists z. split; [exact Hz|apply Hin].
Qed.

(** The loop over the glob: the list only grows at its end, keeps its
    paths distinct, and gains the paths without ignored part that it did
    not hold. *)
Lemma glob_loop_spec (project_dir : fpath) (matches : list fpath) :
  forall configs,
    NoDup (map snd configs) ->
    NoDup (map snd (glob_loop project_dir matches configs))
    /\ (exists added,
           glob_loop project_dir matches configs = configs ++ added
           /\ Forall (fun c =>
                        exists rel,
                          In rel matches
                          /\ snd c = project_dir ++ rel
                          /\ fst c = ("TypeScript Config ("
                                      ++ fpath_str rel ++ ")")%string)
                     added)
    /\ (forall p,
           In p (map snd (glob_loop project_dir matches configs))
           <-> In p (map snd configs)
               \/ (exists rel, In rel matches /\ p = project_dir ++ rel
                               /\ has_ignored_part p = false)).
Proof.
  induction matches as [|rel matches IH]; intros configs Hnd.
  - cbn [glob_loop]. split; [exact Hnd|]. split.
    + exists []. rewrite app_nil_r. split; [reflexivity|constructor].
    + intros p. split; [auto|]. intros [H|[r [[] _]]]. exact H.
  - cbn [glob_loop].
    destruct (has_ignored_part (project_dir ++ rel)) eqn:Hi.
    + destruct (IH configs Hnd) as [H1 [[added [H2 H2']] H3]].
      split; [exact H1|]. split.
      * exists added. split; [exact H2|].
        revert H2'. apply Forall_impl.
        intros c [r [Hr Hc]]. exists r. split; [right; exact Hr|exact Hc].
      * intros p. rewrite H3. split.
        -- intros [H|[r [Hr [Hp Hq]]]]; [auto|].
           right. exists r. split; [right; exact Hr|auto].
        -- intros [H|[r [[Hr|Hr] [Hp Hq]]]]; [auto| |].
           ++ subst r. rewrite <- Hp in Hi. congruence.
           ++ right. exists r. auto.
    + destruct (already_listed (project_dir ++ rel) configs) eqn:Ha;
        cbn [negb].
      * destruct (IH configs Hnd) as [H1 [[added [H2 H2']] H3]].
        split; [exact H1|]. split.
        -- exists added. split; [exact H2|].
           revert H2'. apply Forall_impl.
           intros c [r [Hr Hc]]. exists r. split; [right; exact Hr|exact Hc].
        -- intros p. rewrite H3. split.
           ++ intros [H|[r [Hr [Hp Hq]]]]; [auto|].
              right. exists r. split; [right; exact Hr|auto].
           ++ intros [H|[r [[Hr|Hr] [Hp Hq]]]]; [auto| |].
              ** subst r. left. apply already_listed_in. rewrite Hp.
                 exact Ha.
              ** right. exists r. auto.
      * assert (Hn : ~ In (project_dir ++ rel) (map snd configs)).
        { intros H. apply already_listed_in in H. congruence. }
        assert (Hnd' : NoDup (map snd
                  (configs ++ [(("TypeScript Config ("
                                 ++ fpath_str rel ++ ")")%string,
                                project_dir ++ rel)]))).
        { rewrite map_app. cbn [map snd].
          apply NoDup_app; [exact Hnd|repeat constructor; intros []|].
          intros x Hx [Hx'|[]]. subst x. exact (Hn Hx). }
        destruct (IH _ Hnd') as [H1 [[added [H2 H2']] H3]].
        split; [exact H1|]. split.
        -- eexists. rewrite H2, <- app_assoc. split; [reflexivity|].
           cbn [app]. constructor.
           ++ exists rel. cbn [In fst snd]. auto.
           ++ revert H2'. apply Forall_impl.
              intros c [r [Hr Hc]]. exists r.
              split; [right; exact Hr|exact Hc].
        -- intros p. rewrite H3, map_app, in_app_iff. cbn [map snd In].
           split.
           ++ intros [[H|[H|[]]]|[r [Hr [Hp Hq]]]].
              ** auto.
              ** right. exists rel. subst p. auto.
              ** right. exists r. split; [right; exact Hr|auto].
           ++ intros [H|[r [[Hr|Hr] [Hp Hq]]]].
              ** auto.
              ** subst r. left. right. left. auto.
              ** right. exists r. auto.
Qed.

(** The configuration files found.  No path is listed twice, so no file
    is evaluated twice; the standard files that exist come first, in
    their order and under their names; a path is listed exactly when it
    is a standard file that exists or a path of the glob none of whose
    parts, the parts of the project directory included, is [.git],
    [node_modules], [dist], [build] or [.next]. *)
Theorem config_files_found (sys : Sys) (project_dir : fpath) :
  NoDup (map snd (find_tsconfig_files sys project_dir))
  /\ (exists added,
         find_tsconfig_files sys project_dir
         = filter (fun config => sys_exists sys (snd config))
                  (standard_configs project_dir) ++ added
         /\ Forall (fun c =>
                      exists rel,
                        In rel (sys_glob sys project_dir)
                        /\ snd c = project_dir ++ rel
                        /\ fst c = ("TypeScript Config ("
                                    ++ fpath_str rel ++ ")")%string)
                   added)
  /\ (forall p,
         In p (map snd (find_tsconfig_files sys project_dir))
         <-> (In p (map snd (standard_configs project_dir))
              /\ sys_exists sys p = true)
             \/ (exists rel,
                    In rel (sys_glob sys project_dir)
                    /\ p = project_dir ++ rel
                    /\ has_ignored_part p = false))
  /\ (has_ignored_part project_dir = true ->
      find_tsconfig_files sys project_dir
      = filter (fun config => sys_exists sys (snd config))
               (standard_configs project_dir)).
Proof.
  unfold find_tsconfig_files.
  assert (Hnd : NoDup (map snd
                  (filter (fun config => sys_exists sys (snd config))
                          (standard_configs project_dir)))).
  { apply kept_configs_distinct. apply standard_configs_distinct. }
  destruct (glob_loop_spec project_dir (sys_glob sys project_dir) _ Hnd)
    as [H1 [H2 H3]].
  split; [exact H1|]. split; [exact H2|]. split.
  - intros p. rewrite H3.
    assert (Hs : In p (map snd
                   (filter (fun config => sys_exists sys (snd config))
                           (standard_configs project_dir)))
                 <-> In p (map snd (standard_configs project_dir))
                     /\ sys_exists sys p = true).
    { rewrite !in_map_iff. split.
      - intros [c [Hc Hin]]. apply filter_In in Hin.
        destruct Hin as [Hin He]. subst p. split; [|exact He].
        exists c. auto.
      - intros [[c [Hc Hin]] He]. exists c. split; [exact Hc|].
        apply filter_In. subst p. auto. }
    rewrite Hs. reflexivity.
  - intros Hi.
    assert (Hg : forall matches configs,
               glob_loop project_dir matches configs = configs).
    { induction matches as [|rel matches IH]; intros configs;
        [reflexivity|].
      cbn [glob_loop].
      assert (Hp : has_ignored_part (project_dir ++ rel) = true).
      { unfold has_ignored_part in *. rewrite existsb_app, Hi.
        reflexivity. }
      rewrite Hp. apply IH. }
    apply Hg.
Qed.

(* ================================================================== *)
(** ** The exit status of [main] *)
(* ================================================================== *)




(* ================================================================== *)
(** ** Lazy repetition and the front matter *)
(* ================================================================== *)

Lemma lazy_iter_S {A : Type}
      (body : mstate A -> cont -> option (mstate A)) (n : nat)
      (st : mstate A) (k : cont) :
  lazy_iter body (S n) st k
  = match k st with
    | Some res => Some res
    | None =>
        body st (fun st' =>
          if progress st st' then lazy_iter body n st' k else None)
    end.
Proof. reflexivity. Qed.

Lemma m_star_lazy {A : Type} (r : regex A) (st : mstate A) (k : cont) :
  m (StarLazy r) st k = lazy_iter (m r) (length (rest st)) st k.
Proof. reflexivity. Qed.

Lemma m_look {A : Type} (a : list A -> list A -> bool) (st : mstate A)
      (k : cont) :
  m (Look a) st k = if a (seen st) (rest st) then k st else None.
Proof. reflexivity. Qed.

(** A lazy run over a character class stops at the first position where
    the continuation succeeds. *)
Lemma lazy_chr_run {A : Type} (p : A -> bool) (run : list A) :
  forall n b a g (k : cont) x,
    forallb p run = true ->
    (forall r1 r2, run = r1 ++ r2 -> r2 <> [] ->
                   k (MState (rev r1 ++ b) (r2 ++ a) g) = None) ->
    length (run ++ a) <= n ->
    k (MState (rev run ++ b) a g) = Some x ->
    lazy_iter (m (Chr p)) n (MState b (run ++ a) g) k = Some x.
Proof.
  induction run as [|c run IH]; intros n b a g k x Hp Hf Hn Hk.
  - cbn [app rev] in *. destruct n as [|n]; [exact Hk|].
    rewrite lazy_iter_S, Hk. reflexivity.
  - cbn [forallb] in Hp. apply andb_prop in Hp. destruct Hp as [Hc Hp].
    destruct n as [|n]; [simpl in Hn; lia|].
    rewrite lazy_iter_S.
    pose proof (Hf [] (c :: run) eq_refl ltac:(discriminate)) as H0.
    cbn [rev app] in H0. cbn [app]. rewrite H0.
    rewrite m_chr_cons, Hc.
    assert (Hpr : progress (MState b (c :: run ++ a) g)
                           (MState (c :: b) (run ++ a) g) = true).
    { unfold progress. simpl. apply Nat.ltb_lt. lia. }
    rewrite Hpr. apply IH.
    + exact Hp.
    + intros r1 r2 E Hne. specialize (Hf (c :: r1) r2).
      cbn [rev app] in Hf. rewrite <- app_assoc in Hf. apply Hf.
      * rewrite E. reflexivity.
      * exact Hne.
    + simpl in Hn. lia.
    + cbn [rev] in Hk. rewrite <- app_assoc in Hk. exact Hk.
Qed.

Lemma starts_with_app (s a : str) : starts_with s (s ++ a) = true.
Proof.
  induction s as [|c s IH]; [reflexivity|].
  cbn [app starts_with]. rewrite Ascii.eqb_refl. exact IH.
Qed.

Lemma starts_with_true (s : str) :
  forall a, starts_with s a = true -> exists a', a = s ++ a'.
Proof.
  induction s as [|c s IH]; intros a H.
  - exists a. reflexivity.
  - destruct a as [|d a]; [discriminate|].
    cbn [starts_with] in H. apply andb_prop in H. destruct H as [Hc H].
    apply Ascii.eqb_eq in Hc. subst d.
    destruct (IH a H) as [a' E]. exists a'. rewrite E. reflexivity.
Qed.

(** Only the first characters of a text decide whether it starts with
    another. *)
Lemma starts_with_long (s : str) :
  forall u v, length s <= length u ->
              starts_with s (u ++ v) = starts_with s u.
Proof.
  induction s as [|c s IH]; intros u v H; [reflexivity|].
  destruct u as [|d u]; [simpl in H; lia|].
  cbn [app starts_with]. rewrite IH; [reflexivity|simpl in H; lia].
Qed.

Lemma all_chars_any (s : str) : forallb any_char s = true.
Proof. induction s as [|c s IH]; [reflexivity|exact IH]. Qed.

Lemma fm_close_match (b a : str) (g : list (nat * str)) (k : cont) :
  m (Seq (Chr (is_char NL)) (Seq (Lit (s2l "---")) (Chr (is_char NL))))
    (MState b (fm_close ++ a) g) k
  = k (MState (rev fm_close ++ b) a g).
Proof. reflexivity. Qed.

Lemma fm_close_fail (b a : str) (g : list (nat * str)) (k : cont) :
  starts_with fm_close a = false ->
  m (Seq (Chr (is_char NL)) (Seq (Lit (s2l "---")) (Chr (is_char NL))))
    (MState b a g) k = None.
Proof.
  intros H. rewrite m_seq. destruct a as [|c a]; [apply m_chr_nil|].
  rewrite m_chr_cons. unfold is_char.
  destruct (Ascii.eqb_spec c NL) as [E|E]; [|reflexivity].
  subst c. rewrite m_seq.
  destruct (starts_with (s2l "---") a) eqn:Hs.
  - destruct (starts_with_true _ _ Hs) as [a' Ea]. subst a.
    rewrite lit_ok. destruct a' as [|d a']; [apply m_chr_nil|].
    rewrite m_chr_cons. unfold is_char.
    destruct (Ascii.eqb_spec d NL) as [E'|E']; [|reflexivity].
    subst d. exfalso.
    assert (Ht : starts_with fm_close
                   (NL :: s2l "---" ++ NL :: a') = true).
    { change (NL :: s2l "---" ++ NL :: a') with (fm_close ++ a').
      apply starts_with_app. }
    congruence.
  - apply lit_fail. exact Hs.
Qed.

(** The front-matter pattern on a text that opens with a block. *)
Lemma frontmatter_match (fm tl : str) :
  contains fm_close (fm ++ NL :: s2l "---") = false ->
  exec frontmatter_re [] (fm_open ++ fm ++ fm_close ++ tl)
  = Some (MObj (fm_open ++ fm ++ fm_close) [(1, fm)] tl).
Proof.
  intros Hc.
  assert (Hm : exists sn,
             m frontmatter_re
               (MState [] ((fm_open ++ fm ++ fm_close) ++ tl) []) Some
             = Some (MState sn tl [(1, fm)])).
  { eexists. unfold frontmatter_re, Bos.
    rewrite m_seq, m_look. cbn [seen rest].
    rewrite m_seq. rewrite <- !app_assoc.
    change (fm_open ++ fm ++ fm_close ++ tl)
      with (s2l "---" ++ NL :: fm ++ fm_close ++ tl).
    rewrite lit_ok, m_seq, m_chr_cons.
    change (is_char NL NL) with true. cbv iota.
    rewrite m_seq, m_group, m_star_lazy. cbn [rest].
    apply (lazy_chr_run any_char fm);
      [apply all_chars_any| |apply Nat.le_refl|].
    - intros r1 r2 E Hne. cbn [seen rest groups].
      apply fm_close_fail.
      replace (r2 ++ fm_close ++ tl)
        with ((r2 ++ NL :: s2l "---") ++ NL :: tl)
        by (rewrite <- app_assoc; reflexivity).
      rewrite starts_with_long.
      + rewrite E, <- app_assoc in Hc.
        apply (contains_false_split _ _ _ Hc).
      + rewrite length_app. destruct r2; [contradiction|].
        simpl. lia.
    - cbn [seen rest groups]. rewrite fm_close_match.
      unfold consumed. cbn [rest].
      rewrite firstn_app_length. reflexivity. }
  destruct Hm as [sn Hm].
  unfold exec. rewrite <- !app_assoc in Hm.
  rewrite Hm. cbn [rest groups].
  replace (fm_open ++ fm ++ fm_close ++ tl)
    with ((fm_open ++ fm ++ fm_close) ++ tl)
    by (rewrite <- !app_assoc; reflexivity).
  rewrite firstn_app_length. reflexivity.
Qed.

(** The text of a front-matter block is what stands between its two
    marker lines: it is handed, with the globs value quoted, to the YAML
    parser, whose mapping is kept; a YAML error makes the parser read
    the same text line by line instead of raising; and the document goes
    on after the closing marker. *)
Theorem front_matter_block (env : Env) (fm tl : str)
        (Hfm : contains fm_close (fm ++ NL :: s2l "---") = false) :
  parse_frontmatter env (fm_open ++ fm ++ fm_close ++ tl)
  = match yaml_safe_load env (quote_globs fm) with
    | Ok front => Ok (front, tl)
    | Raise (YAMLError _) => Ok (frontmatter_by_hand (quote_globs fm), tl)
    | Raise e => Raise e
    end
  /\ forall msg,
       parse_frontmatter env (fm_open ++ fm ++ fm_close ++ tl)
       <> Raise (YAMLError msg).
Proof.
  assert (H : parse_frontmatter env (fm_open ++ fm ++ fm_close ++ tl)
              = match yaml_safe_load env (quote_globs fm) with
                | Ok front => Ok (front, tl)
                | Raise (YAMLError _) =>
                    Ok (frontmatter_by_hand (quote_globs fm), tl)
                | Raise e => Raise e
                end).
  { unfold parse_frontmatter. rewrite (frontmatter_match fm tl Hfm).
    reflexivity. }
  split; [exact H|].
  intros msg. rewrite H.
  destruct (yaml_safe_load env (quote_globs fm)) as [front|[]];
    discriminate.
Qed.

(** A text that does not open with the marker line has an empty front
    matter and is parsed whole for sections and code blocks. *)
Theorem no_front_matter (env : Env) (content : str)
        (Hno : starts_with fm_open content = false) :
  parse_frontmatter env content = Ok (VDict [], content).
Proof.
  unfold parse_frontmatter, exec, frontmatter_re, Bos.
  rewrite m_seq, m_look. cbn [seen rest]. rewrite m_seq.
  destruct (starts_with (s2l "---") content) eqn:Hs.
  - destruct (starts_with_true _ _ Hs) as [a E]. subst content.
    rewrite lit_ok, m_seq. destruct a as [|c a].
    + rewrite m_chr_nil. reflexivity.
    + rewrite m_chr_cons. unfold is_char.
      destruct (Ascii.eqb_spec c NL) as [Ec|Ec]; [|reflexivity].
      subst c. exfalso.
      change (s2l "---" ++ NL :: a) with (fm_open ++ a) in Hno.
      rewrite starts_with_app in Hno. discriminate.
  - rewrite lit_fail by exact Hs. reflexivity.
Qed.

(** The front matter of the example document; the YAML parser of the
    example environment fails, so the block is read line by line. *)
Lemma front_matter_block_example :
  parse_frontmatter (example_env []) front_matter_example_text
  = Ok (VDict [("description", VStr "Rules"); ("globs", VStr "**/*.ts")],
        txt "# Guidelines~Be strict.~").
Proof.
  destruct (front_matter_block (example_env [])
              (txt "description: Rules~globs: **/*.ts")
              (txt "# Guidelines~Be strict.~") eq_refl) as [H _].
  exact H.
Defined.

Lemma no_front_matter_example :
  parse_frontmatter (example_env []) (txt "# Guidelines~---~x: 1~---~")
  = Ok (VDict [], txt "# Guidelines~---~x: 1~---~").
Proof.
  exact (no_front_matter (example_env [])
           (txt "# Guidelines~---~x: 1~---~") eq_refl).
Defined.

(* ================================================================== *)
(** ** Documents with headings *)
(* ================================================================== *)

Lemma heading_ok_inv (h : headed_section) :
  heading_ok h = true ->
  exists marks g gap c title,
    h_marks h = "#"%char :: marks
    /\ forallb (is_char "#") marks = true
    /\ h_gap h = g :: gap
    /\ py_isspace g = true /\ forallb py_isspace gap = true
    /\ h_title h = c :: title
    /\ py_isspace c = false
    /\ forallb dot (c :: title) = true
    /\ no_heading_line (h_text h) = true.
Proof.
  unfold heading_ok.
  destruct (h_marks h) as [|mark marks]; [discriminate|].
  destruct (h_gap h) as [|g gap]; [discriminate|].
  destruct (h_title h) as [|c title]; [discriminate|].
  intros H.
  apply andb_prop in H. destruct H as [H H5].
  apply andb_prop in H. destruct H as [H H4].
  apply andb_prop in H. destruct H as [H H3].
  apply andb_prop in H. destruct H as [H1 H2].
  cbn [forallb] in H1, H2.
  apply andb_prop in H1. destruct H1 as [Hm H1].
  apply andb_prop in H2. destruct H2 as [Hg H2].
  unfold is_char in Hm. apply Ascii.eqb_eq in Hm. subst mark.
  apply negb_true_iff in H3.
  exists marks, g, gap, c, title. repeat split; assumption.
Qed.

Lemma space_is_no_mark (c : ascii) :
  py_isspace c = true -> is_char "#" c = false.
Proof.
  intros H. unfold is_char.
  destruct (Ascii.eqb_spec c "#") as [E|E]; [|reflexivity].
  subst c. discriminate.
Qed.

(** The heading pattern at the start of a well-written heading line. *)
Lemma heading_match (h : headed_section) (bef tl : str) :
  heading_ok h = true ->
  line_start bef = true ->
  exists sn,
    m heading_re (MState bef (heading_of h ++ NL :: tl) []) Some
    = Some (MState sn (NL :: tl) [(1, heading_of h)]).
Proof.
  intros Hok Hbol.
  destruct (heading_ok_inv h Hok)
    as [marks [g [gap [c [title [Em [Hm [Eg [Hg [Hgap [Et [Hc [Hd _]]]]]]]]]]]]].
  unfold heading_of. rewrite Em, Eg, Et. clear Em Eg Et Hok.
  eexists. unfold heading_re, Bol, Plus.
  rewrite m_seq, m_look. cbn [seen rest].
  unfold line_start in Hbol. rewrite Hbol.
  rewrite m_seq, m_group, m_seq, m_seq.
  rewrite <- !app_assoc. cbn [app].
  rewrite m_chr_cons. change (is_char "#" "#") with true. cbv iota.
  rewrite m_star. cbn [rest].
  apply (star_chr_run (is_char "#") marks);
    [exact Hm|apply space_is_no_mark; exact Hg|apply Nat.le_refl|].
  rewrite m_seq, m_seq, m_chr_cons, Hg, m_star. cbn [rest].
  apply (star_chr_run py_isspace gap);
    [exact Hgap|exact Hc|apply Nat.le_refl|].
  rewrite m_star_lazy. cbn [rest].
  change (c :: title ++ NL :: tl) with ((c :: title) ++ NL :: tl).
  apply (lazy_chr_run dot (c :: title)); [exact Hd| |apply Nat.le_refl|].
  - intros r1 r2 E Hne. cbn [seen rest groups].
    unfold Eol. rewrite m_look. cbn [seen rest].
    destruct r2 as [|d r2]; [contradiction|].
    rewrite E, forallb_app in Hd. apply andb_prop in Hd.
    destruct Hd as [_ Hd]. cbn [forallb] in Hd.
    apply andb_prop in Hd. destruct Hd as [Hd _].
    unfold dot in Hd. apply negb_true_iff in Hd.
    cbn [app]. rewrite Hd. reflexivity.
  - cbn [seen rest groups]. unfold Eol. rewrite m_look. cbn [seen rest].
    rewrite Ascii.eqb_refl. unfold consumed. cbn [rest].
    change ("#"%char :: marks ++ g :: gap ++ (c :: title) ++ NL :: tl)
      with (("#"%char :: marks) ++ (g :: gap) ++ (c :: title) ++ NL :: tl).
    replace (("#"%char :: marks) ++ (g :: gap) ++ (c :: title) ++ NL :: tl)
      with ((("#"%char :: marks) ++ (g :: gap) ++ c :: title) ++ NL :: tl)
      by (rewrite <- !app_assoc; reflexivity).
    rewrite firstn_app_length. reflexivity.
Qed.

(** The heading pattern matches only at the start of a line, and only
    on a heading mark. *)
Lemma heading_needs_line_start (bef aft : str) :
  line_start bef = false -> exec heading_re bef aft = None.
Proof.
  intros H. unfold exec, heading_re, Bol.
  rewrite m_seq, m_look. cbn [seen rest].
  unfold line_start in H. rewrite H. reflexivity.
Qed.

Lemma no_heading_in (s bef : str) :
  contains [NL; "#"%char] s = false ->
  match s with "#"%char :: _ => line_start bef = false | _ => True end ->
  forall p1 p2 tl,
    s = p1 ++ p2 -> p2 <> [] ->
    exec heading_re (rev p1 ++ bef) (p2 ++ tl) = None.
Proof.
  intros Hc Hhead p1 p2 tl E Hne.
  destruct p2 as [|d p2]; [contradiction|]. cbn [app].
  destruct (Ascii.eqb_spec d "#") as [Ed|Ed].
  2:{ apply heading_needs_mark. exact Ed. }
  subst d. apply heading_needs_line_start.
  destruct (rev p1) as [|c q] eqn:Er.
  - apply (f_equal (@rev ascii)) in Er. rewrite rev_involutive in Er.
    cbn [rev] in Er. subst p1. cbn [app] in E. subst s.
    cbn [app]. exact Hhead.
  - apply (f_equal (@rev ascii)) in Er. rewrite rev_involutive in Er.
    cbn [rev] in Er. subst p1. cbn [app line_start].
    destruct (Ascii.eqb_spec c NL) as [Ec|Ec]; [|reflexivity].
    subst c. exfalso. rewrite E, <- app_assoc in Hc.
    apply contains_false_split in Hc. discriminate.
Qed.

Lemma no_heading_line_inv (s : str) :
  no_heading_line s = true ->
  contains [NL; "#"%char] s = false
  /\ contains [NL; "#"%char] (NL :: s) = false
  /\ match s with "#"%char :: _ => False | _ => True end.
Proof.
  unfold no_heading_line. intros H. apply negb_true_iff in H.
  split; [|split; [exact H|]].
  - rewrite contains_cons in H. apply orb_false_elim in H. apply H.
  - destruct s as [|c s]; [exact I|].
    destruct (Ascii.eqb_spec c "#") as [E|E].
    + subst c. rewrite contains_cons in H. discriminate.
    + destruct c as [[] [] [] [] [] [] [] []]; try exact I.
      contradiction.
Qed.

Lemma split_pieces_app {A : Type} (s : list A) :
  forall cur xs,
    split_pieces cur (map inl s ++ xs) = split_pieces (rev s ++ cur) xs.
Proof.
  induction s as [|c s IH]; intros cur xs; cbn [map app split_pieces].
  - reflexivity.
  - rewrite IH. cbn [rev]. rewrite <- app_assoc. reflexivity.
Qed.

Lemma heading_of_not_nil (h : headed_section) :
  heading_ok h = true -> heading_of h <> [].
Proof.
  intros H. destruct (heading_ok_inv h H) as [marks [g [gap [c [title [E _]]]]]].
  unfold heading_of. rewrite E. discriminate.
Qed.

Lemma ends_lines_line_start (s bef : str) :
  ends_lines s = true -> line_start (rev (NL :: s) ++ bef) = true.
Proof.
  unfold ends_lines. intros H. cbn [rev].
  destruct (rev s) as [|c q]; cbn [app line_start].
  - apply Ascii.eqb_refl.
  - exact H.
Qed.

(** The cut of a document of headed sections: the text before the first
    heading, then each heading followed by the text up to the next. *)
Lemma split_sections (hs : list headed_section) :
  forall piece bef cur,
    (forall p1 p2 tl, piece = p1 ++ p2 -> p2 <> [] ->
                      exec heading_re (rev p1 ++ bef) (p2 ++ tl) = None) ->
    (hs <> [] -> line_start (rev piece ++ bef) = true) ->
    sections_ok hs = true ->
    split_pieces cur (scan_from heading_re 0 bef (piece ++ sections_text hs))
    = split_list (rev cur ++ piece) hs.
Proof.
  induction hs as [|h hs IH]; intros piece bef cur Hno Hbol Hok.
  - cbn [sections_text split_list]. rewrite app_nil_r.
    rewrite scan_no_match; [apply split_pieces_chars|].
    intros pre post E. destruct post as [|d post].
    + apply heading_needs_mark. exact I.
    + specialize (Hno pre (d :: post) [] E ltac:(discriminate)).
      rewrite app_nil_r in Hno. exact Hno.
  - cbn [sections_ok] in Hok.
    apply andb_prop in Hok. destruct Hok as [Hok Hrest].
    apply andb_prop in Hok. destruct Hok as [Hh Hend].
    cbn [sections_text split_list].
    rewrite scan_prefix_no_match by (intros p1 p2 E Hne; apply Hno; assumption).
    destruct (heading_match h (rev piece ++ bef)
                (h_text h ++ sections_text hs) Hh
                (Hbol ltac:(discriminate))) as [sn Hm].
    rewrite (scan_match heading_re (rev piece ++ bef) (heading_of h)
               (NL :: h_text h ++ sections_text hs) _
               (heading_of_not_nil h Hh) Hm eq_refl).
    rewrite split_pieces_app. cbn [split_pieces groups].
    rewrite rev_app_distr, rev_involutive.
    f_equal. f_equal.
    change (NL :: h_text h ++ sections_text hs)
      with ((NL :: h_text h) ++ sections_text hs).
    rewrite IH; [reflexivity| | |exact Hrest].
    + destruct (heading_ok_inv h Hh)
        as [_ [_ [_ [_ [_ [_ [_ [_ [_ [_ [_ [_ [_ Hn]]]]]]]]]]]]].
      destruct (no_heading_line_inv _ Hn) as [_ [Hc _]].
      apply no_heading_in; [exact Hc|exact I].
    + intros Hne. apply ends_lines_line_start.
      destruct hs as [|h' hs]; [contradiction|exact Hend].
Qed.

Lemma lstrip_id (c : ascii) (s : str) :
  py_isspace c = false -> lstrip (c :: s) = c :: s.
Proof. intros H. cbn [lstrip]. rewrite H. reflexivity. Qed.

(** Stripping white space on the left of a text that ends with another
    character leaves that character in place. *)
Lemma lstrip_snoc (c : ascii) (s : str) :
  py_isspace c = false ->
  forall t, exists l, lstrip (s ++ c :: t) = l ++ c :: t.
Proof.
  intros H. induction s as [|d s IH]; intros t.
  - exists []. apply lstrip_id. exact H.
  - cbn [app lstrip]. destruct (py_isspace d).
    + apply IH.
    + exists (d :: s). reflexivity.
Qed.

Lemma lstrip_app_snoc (c : ascii) (s t : str) :
  py_isspace c = false ->
  lstrip (s ++ c :: t) = lstrip (s ++ [c]) ++ t.
Proof.
  intros H. induction s as [|d s IH].
  - cbn [app lstrip]. rewrite H. reflexivity.
  - cbn [app lstrip]. destruct (py_isspace d).
    + exact IH.
    + cbn [app]. rewrite <- app_assoc. reflexivity.
Qed.

(** The stripped title of a heading starts with the first character of
    the title, and the stripped heading is the marks, the white space
    and the stripped title. *)
Lemma strip_heading (x : str) (c : ascii) (title : str) :
  py_isspace c = false ->
  match x with d :: _ => py_isspace d = false | [] => True end ->
  exists t,
    strip (c :: title) = c :: t
    /\ strip (x ++ c :: title) = x ++ c :: t.
Proof.
  intros Hc Hx.
  destruct (lstrip_snoc c (rev title) Hc []) as [l Hl].
  exists (rev l). split.
  - unfold strip. rewrite (lstrip_id c title Hc). cbn [rev].
    rewrite Hl, rev_app_distr. reflexivity.
  - unfold strip.
    assert (Hlx : lstrip (x ++ c :: title) = x ++ c :: title).
    { destruct x as [|d x]; cbn [app]; apply lstrip_id; assumption. }
    rewrite Hlx, rev_app_distr. cbn [rev]. rewrite <- app_assoc.
    cbn [app]. rewrite lstrip_app_snoc by exact Hc.
    rewrite Hl, rev_app_distr, rev_involutive, rev_app_distr.
    reflexivity.
Qed.

Lemma marks_need_start (bef aft : str) :
  bef <> [] -> exec heading_marks_re bef aft = None.
Proof.
  intros H. unfold exec, heading_marks_re, Bos.
  rewrite m_seq, m_look. cbn [seen rest].
  destruct bef; [contradiction|reflexivity].
Qed.

(** [re.sub] of the marks on a stripped heading leaves the stripped
    title. *)
Lemma section_name_of (h : headed_section) :
  heading_ok h = true ->
  sub heading_marks_re (fun _ => []) (strip (heading_of h))
  = strip (h_title h).
Proof.
  intros Hok.
  destruct (heading_ok_inv h Hok)
    as [marks [g [gap [c [title [Em [Hm [Eg [Hg [Hgap [Et [Hc _]]]]]]]]]]]].
  unfold heading_of. rewrite Em, Eg, Et.
  destruct (strip_heading (("#"%char :: marks) ++ g :: gap) c title Hc
              eq_refl) as [t [Ht Hs]].
  rewrite <- app_assoc in Hs. rewrite Hs, Ht.
  assert (Hmatch : exists sn g',
             m heading_marks_re
               (MState [] ((("#"%char :: marks) ++ g :: gap) ++ c :: t) [])
               Some
             = Some (MState sn (c :: t) g')).
  { eexists. eexists. unfold heading_marks_re, Bos, Plus.
    rewrite m_seq, m_look. cbn [seen rest].
    rewrite m_seq, m_seq. rewrite <- !app_assoc. cbn [app].
    rewrite m_chr_cons. change (is_char "#" "#") with true. cbv iota.
    rewrite m_star. cbn [rest].
    apply (star_chr_run (is_char "#") marks);
      [exact Hm|apply space_is_no_mark; exact Hg|apply Nat.le_refl|].
    rewrite m_seq, m_chr_cons, Hg, m_star. cbn [rest].
    apply (star_chr_run py_isspace gap);
      [exact Hgap|exact Hc|apply Nat.le_refl|].
    reflexivity. }
  destruct Hmatch as [sn [g' Hmatch]].
  unfold sub, scan.
  replace (("#"%char :: marks) ++ (g :: gap) ++ c :: t)
    with ((("#"%char :: marks) ++ g :: gap) ++ c :: t)
    by (rewrite <- app_assoc; reflexivity).
  assert (Hne : ("#"%char :: marks) ++ g :: gap <> []) by discriminate.
  rewrite (scan_match heading_marks_re [] (("#"%char :: marks) ++ g :: gap)
             (c :: t) _ Hne Hmatch eq_refl).
  rewrite scan_no_match.
  - cbn [flat_map app]. apply flat_map_inl.
  - intros pre post E. apply marks_need_start.
    rewrite app_nil_r. intros Hn. apply app_eq_nil in Hn.
    destruct Hn as [_ Hn].
    apply (f_equal (@rev ascii)) in Hn. rewrite rev_involutive in Hn.
    discriminate.
Qed.

Lemma split_list_head (piece : str) (hs : list headed_section) :
  exists pieces, split_list piece hs = piece :: pieces
                 /\ length pieces = 2 * length hs.
Proof.
  revert piece. induction hs as [|h hs IH]; intros piece.
  - exists []. split; reflexivity.
  - cbn [split_list]. destruct (IH (NL :: h_text h)) as [ps [E L]].
    eexists. split; [reflexivity|].
    rewrite E. cbn [length]. rewrite L. lia.
Qed.

(** The loop of lines 104-109 over the pieces of a document of headed
    sections stores each section under its stripped title. *)
Lemma sections_loop (hs : list headed_section) :
  forall front piece d,
    sections_ok hs = true ->
    fold_left (section_step (front ++ split_list piece hs))
              (range_even (length front) (S (length hs))) d
    = fold_left store_section hs d.
Proof.
  induction hs as [|h hs IH]; intros front piece d Hok.
  - cbn [split_list length range_even fold_left]. unfold section_step.
    rewrite length_app. cbn [length].
    assert (E : (S (length front) <? length front + 1) = false)
      by (apply Nat.ltb_ge; lia).
    rewrite E. reflexivity.
  - cbn [sections_ok] in Hok.
    apply andb_prop in Hok. destruct Hok as [Hok Hrest].
    apply andb_prop in Hok. destruct Hok as [Hh _].
    cbn [split_list length range_even fold_left].
    destruct (split_list_head (NL :: h_text h) hs) as [ps [Eps Lps]].
    assert (Hstep : section_step
                      (front ++ piece :: heading_of h
                             :: split_list (NL :: h_text h) hs)
                      d (length front)
                    = store_section d h).
    { unfold section_step. rewrite Eps.
      rewrite length_app. cbn [length].
      assert (E1 : (S (length front)
                    <? length front + S (S (S (length ps)))) = true)
        by (apply Nat.ltb_lt; lia).
      assert (E2 : (S (S (length front))
                    <? length front + S (S (S (length ps)))) = true)
        by (apply Nat.ltb_lt; lia).
      rewrite E1, E2.
      replace (S (length front)) with (length front + 1) by lia.
      replace (S (length front + 1)) with (length front + 2) by lia.
      rewrite !app_nth2_plus. cbn [nth].
      rewrite (section_name_of h Hh). reflexivity. }
    rewrite Hstep.
    replace (front ++ piece :: heading_of h
                   :: split_list (NL :: h_text h) hs)
      with ((front ++ [piece; heading_of h])
              ++ split_list (NL :: h_text h) hs)
      by (rewrite <- app_assoc; reflexivity).
    replace (S (S (length front)))
      with (length (front ++ [piece; heading_of h]))
      by (rewrite length_app; cbn [length]; lia).
    apply IH. exact Hrest.
Qed.

Lemma dict_get_set {V : Type} (key key' : string) (v : V) (d : dict V) :
  dict_get key (dict_set key' v d)
  = if String.eqb key' key then Some v else dict_get key d.
Proof.
  induction d as [|[k v0] d IH]; cbn [dict_set dict_get].
  - reflexivity.
  - destruct (String.eqb_spec k key') as [E|E].
    + subst k. cbn [dict_get].
      destruct (String.eqb key' key); reflexivity.
    + cbn [dict_get]. rewrite IH.
      destruct (String.eqb_spec k key) as [E1|E1];
        destruct (String.eqb_spec key' key) as [E2|E2];
        try reflexivity.
      congruence.
Qed.

Lemma find_last {A : Type} (p : A -> bool) (l : list A) (x : A) :
  find p (l ++ [x])
  = match find p l with
    | Some y => Some y
    | None => if p x then Some x else None
    end.
Proof.
  induction l as [|y l IH]; cbn [app find]; [reflexivity|].
  destruct (p y); [reflexivity|exact IH].
Qed.

(** Looking a key up after the sections are stored gives the body of the
    last section of that name. *)
Lemma lookup_stored (hs : list headed_section) (key : string) :
  forall d,
    dict_get key (fold_left store_section hs d)
    = match find (fun h => String.eqb (section_key h) key) (rev hs) with
      | Some h => Some (section_body h)
      | None => dict_get key d
      end.
Proof.
  induction hs as [|h hs IH]; intros d; cbn [fold_left rev find].
  - reflexivity.
  - rewrite IH, find_last.
    destruct (find (fun h0 => String.eqb (section_key h0) key) (rev hs));
      [reflexivity|].
    unfold store_section. rewrite dict_get_set.
    destruct (String.eqb (section_key h) key); reflexivity.
Qed.

(** A document made of a text without heading line followed by headed
    sections: each section is stored under its title, stripped of the
    white space around it, whatever the number of its marks; what is
    stored is the text from the end of the heading line to the next
    heading; of several sections with one title the last is the one
    found; the text before the first heading is stored nowhere. *)
Theorem headed_sections (pre : str) (hs : list headed_section)
        (Hpre : no_heading_line pre = true)
        (Hline : ends_lines pre = true)
        (Hok : sections_ok hs = true) :
  split heading_re (pre ++ sections_text hs) = split_list pre hs
  /\ parse_sections (pre ++ sections_text hs) = fold_left store_section hs []
  /\ forall key,
       dict_get key (parse_sections (pre ++ sections_text hs))
       = option_map section_body
           (find (fun h => String.eqb (section_key h) key) (rev hs)).
Proof.
  assert (Hs : split heading_re (pre ++ sections_text hs)
               = split_list pre hs).
  { unfold split, scan.
    destruct (no_heading_line_inv pre Hpre) as [Hc [_ Hhead]].
    rewrite (split_sections hs pre [] []).
    - reflexivity.
    - apply no_heading_in; [exact Hc|].
      destruct pre as [|c pre]; [exact I|].
      destruct c as [[] [] [] [] [] [] [] []]; try exact I.
      contradiction.
    - intros _. rewrite app_nil_r. unfold ends_lines in Hline.
      unfold line_start. exact Hline.
    - exact Hok. }
  assert (Hp : parse_sections (pre ++ sections_text hs)
               = fold_left store_section hs []).
  { unfold parse_sections. rewrite Hs.
    destruct (split_list_head pre hs) as [ps [E L]].
    pose proof (sections_loop hs [] pre [] Hok) as Hloop.
    cbn [app length] in Hloop. rewrite <- Hloop.
    f_equal. unfold range_step2. rewrite E. cbn [length].
    unfold str in *. rewrite L.
    change (Nat.div2 (S (S (2 * length hs))))
      with (S (Nat.div2 (2 * length hs))).
    rewrite Nat.div2_double. reflexivity. }
  split; [exact Hs|]. split; [exact Hp|].
  intros key. rewrite Hp, lookup_stored.
  destruct (find (fun h => String.eqb (section_key h) key) (rev hs));
    reflexivity.
Qed.

Lemma headed_sections_example :
  parse_sections (txt "Preface.~" ++ sections_text headed_example)
  = [("Types", txt "~Later text"); ("Strict mode", txt "~~on~")].
Proof.
  destruct (headed_sections (txt "Preface.~") headed_example
              eq_refl eq_refl eq_refl) as [_ [H _]].
  exact H.
Defined.

(* ================================================================== *)
(** ** Fenced code blocks *)
(* ================================================================== *)

Lemma m_alt {A : Type} (r1 r2 : regex A) (st : mstate A) (k : cont) :
  m (Alt r1 r2) st k
  = match m r1 st k with
    | Some res => Some res
    | None => m r2 st k
    end.
Proof. reflexivity. Qed.

Lemma code_block_needs_fence (bef aft : str) :
  starts_with fence aft = false -> exec code_block_re bef aft = None.
Proof.
  intros H. unfold exec, code_block_re. rewrite m_seq.
  rewrite (lit_fail (s2l "```") bef aft [] _ H). reflexivity.
Qed.

Lemma no_fence_in (s bef : str) :
  no_backtick s = true ->
  forall p1 p2 tl,
    s = p1 ++ p2 -> p2 <> [] ->
    exec code_block_re (rev p1 ++ bef) (p2 ++ tl) = None.
Proof.
  intros Hs p1 p2 tl E Hne. apply code_block_needs_fence.
  destruct p2 as [|d p2]; [contradiction|].
  unfold no_backtick in Hs. rewrite E, forallb_app in Hs.
  apply andb_prop in Hs. destruct Hs as [_ Hs].
  cbn [forallb] in Hs. apply andb_prop in Hs. destruct Hs as [Hd _].
  cbn [app]. unfold fence. cbn [s2l list_ascii_of_string starts_with].
  unfold not_in in Hd. cbn [existsb] in Hd.
  rewrite orb_false_r in Hd. apply negb_true_iff in Hd.
  rewrite Ascii.eqb_sym, Hd. reflexivity.
Qed.

(** The closing fence is the first fence after the opening line. *)
Lemma fence_not_inside (code r1 r2 tl : str) :
  contains fence (code ++ s2l "``") = false ->
  code = r1 ++ r2 -> r2 <> [] ->
  starts_with fence (r2 ++ fence ++ tl) = false.
Proof.
  intros Hc E Hne.
  replace (r2 ++ fence ++ tl)
    with ((r2 ++ s2l "``") ++ "`"%char :: tl)
    by (rewrite <- app_assoc; reflexivity).
  rewrite starts_with_long.
  - rewrite E, <- app_assoc in Hc.
    apply (contains_false_split _ _ _ Hc).
  - rewrite length_app. destruct r2; [contradiction|].
    simpl. lia.
Qed.

Lemma word_is_no_line_end : py_isword NL = false.
Proof. reflexivity. Qed.

(** From the end of the opening line to the closing fence. *)
Lemma code_to_fence (code b tl : str) (g : list (nat * str)) :
  contains fence (code ++ s2l "``") = false ->
  exists sn,
    m (Seq (Chr (is_char NL))
           (Seq (Group 2 (StarLazy (Chr any_char))) (Lit (s2l "```"))))
      (MState b (NL :: code ++ fence ++ tl) g) Some
    = Some (MState sn tl ((2, code) :: g)).
Proof.
  intros Hc. eexists.
  rewrite m_seq, m_chr_cons.
  change (is_char NL NL) with true. cbv iota.
  rewrite m_seq, m_group, m_star_lazy. cbn [rest].
  apply (lazy_chr_run any_char code);
    [apply all_chars_any| |apply Nat.le_refl|].
  - intros r1 r2 E Hne. cbn [seen rest groups]. apply lit_fail.
    apply (fence_not_inside code r1 r2 tl Hc E Hne).
  - cbn [seen rest groups]. unfold consumed. cbn [rest].
    rewrite firstn_app_length. unfold fence. rewrite lit_ok.
    reflexivity.
Qed.

(** The code-block pattern at the opening fence of a well-written
    block. *)
Lemma block_match (b : fenced_block) (bef tl : str) :
  block_ok b = true ->
  exists sn g,
    m code_block_re
      (MState bef
         ((fence ++ b_language b ++ NL :: b_code b ++ fence) ++ tl) [])
      Some
    = Some (MState sn tl g)
    /\ lookup_group 1 g
       = match b_language b with
         | [] => None
         | _ :: _ => Some (b_language b)
         end
    /\ group (MObj (fence ++ b_language b ++ NL :: b_code b ++ fence) g tl) 2
       = b_code b.
Proof.
  intros Hok. unfold block_ok in Hok.
  apply andb_prop in Hok. destruct Hok as [Hok _].
  apply andb_prop in Hok. destruct Hok as [Hw Hc].
  apply negb_true_iff in Hc.
  destruct b as [language code after]. cbn [b_language b_code] in *.
  unfold code_block_re, Opt.
  rewrite <- !app_assoc. cbn [app]. rewrite <- !app_assoc.
  destruct language as [|c language].
  - destruct (code_to_fence code (rev (s2l "```") ++ bef) tl [] Hc)
      as [sn Hrun].
    exists sn, [(2, code)].
    split; [|split; reflexivity].
    rewrite m_seq. unfold fence at 1. rewrite lit_ok.
    rewrite m_seq, m_alt. unfold Plus at 1.
    rewrite m_group, m_seq. cbn [app]. rewrite m_chr_cons.
    rewrite word_is_no_line_end.
    change (m Eps ?st ?k) with (k st). cbv beta.
    exact Hrun.
  - cbn [forallb] in Hw. apply andb_prop in Hw. destruct Hw as [Hw0 Hw].
    destruct (code_to_fence code
                (rev language ++ c :: rev (s2l "```") ++ bef) tl
                [(1, c :: language)] Hc) as [sn Hrun].
    exists sn, [(2, code); (1, c :: language)].
    split; [|split; reflexivity].
    rewrite m_seq. unfold fence at 1. rewrite lit_ok.
    rewrite m_seq, m_alt. unfold Plus at 1.
    rewrite m_group, m_seq. cbn [app]. rewrite m_chr_cons, Hw0.
    rewrite m_star. cbn [rest].
    erewrite (star_chr_run py_isword language);
      [reflexivity|exact Hw|exact word_is_no_line_end|apply Nat.le_refl|].
    cbn [seen rest groups]. unfold consumed at 1. cbn [rest].
    change (c :: language ++ NL :: code ++ fence ++ tl)
      with ((c :: language) ++ NL :: code ++ fence ++ tl).
    rewrite firstn_app_length. exact Hrun.
Qed.

Lemma finditer_chars {A : Type} (s : list A) :
  flat_map (fun x : A + mobj A => match x with
                                  | inl _ => []
                                  | inr mo => [mo]
                                  end) (map inl s) = [].
Proof. induction s as [|c s IH]; [reflexivity|exact IH]. Qed.

(** The matches of the scan over a text made of a part without backtick
    and well-written blocks. *)
Lemma blocks_found (bs : list fenced_block) :
  forall seg bef,
    no_backtick seg = true ->
    forallb block_ok bs = true ->
    map (fun mo =>
           (match lookup_group 1 (m_groups mo) with
            | Some ((_ :: _) as language) => l2s language
            | _ => "text"%string
            end,
            l2s (group mo 2)))
        (flat_map (fun x : ascii + mobj ascii =>
                     match x with inl _ => [] | inr mo => [mo] end)
                  (scan_from code_block_re 0 bef (seg ++ blocks_text bs)))
    = map block_entry bs.
Proof.
  induction bs as [|b bs IH]; intros seg bef Hseg Hok.
  - cbn [blocks_text map]. rewrite app_nil_r.
    rewrite scan_no_match; [rewrite finditer_chars; reflexivity|].
    intros pre post E. destruct post as [|d post].
    + apply code_block_needs_fence. reflexivity.
    + pose proof (no_fence_in seg bef Hseg pre (d :: post) [] E
                    ltac:(discriminate)) as H.
      rewrite app_nil_r in H. exact H.
  - cbn [forallb] in Hok. apply andb_prop in Hok.
    destruct Hok as [Hb Hok].
    cbn [blocks_text].
    rewrite scan_prefix_no_match
      by (intros p1 p2 E Hne; apply (no_fence_in seg bef Hseg p1 p2 _ E Hne)).
    rewrite flat_map_app, finditer_chars. cbn [app].
    destruct (block_match b (rev seg ++ bef) (b_after b ++ blocks_text bs) Hb)
      as [sn [g [Hm [H1 H2]]]].
    assert (Hne : fence ++ b_language b ++ NL :: b_code b ++ fence <> [])
      by discriminate.
    rewrite (scan_match code_block_re (rev seg ++ bef) _ _ _ Hne Hm eq_refl).
    cbn [flat_map app map groups m_groups].
    assert (Hafter : no_backtick (b_after b) = true).
    { unfold block_ok in Hb. apply andb_prop in Hb. apply Hb. }
    rewrite (IH (b_after b) _ Hafter Hok).
    f_equal. unfold block_entry. rewrite H1, H2.
    destruct (b_language b); reflexivity.
Qed.

(** The code blocks of a document made of text without backtick and
    well-written fenced blocks are its blocks in their order, each with
    the code between the line of the opening fence and the closing
    fence, under the language written after the opening fence, or under
    [text] when there is none; a document without backtick has no code
    block. *)
Theorem fenced_blocks_extracted (pre : str) (bs : list fenced_block)
        (Hpre : no_backtick pre = true)
        (Hok : forallb block_ok bs = true) :
  parse_code_blocks (pre ++ blocks_text bs) = map block_entry bs.
Proof.
  unfold parse_code_blocks, finditer, scan.
  apply (blocks_found bs pre [] Hpre Hok).
Qed.

Lemma fenced_blocks_example :
  parse_code_blocks (txt "Rules:~" ++ blocks_text fenced_example)
  = [("ts", "const a = 1;
"); ("text", "use `strict` mode
")]%string.
Proof.
  exact (fenced_blocks_extracted (txt "Rules:~") fenced_example
           eq_refl eq_refl).
Defined.

(* ================================================================== *)
(** ** Trailing commas *)
(* ================================================================== *)

(** A greedy run over a character class fails when the continuation
    fails at every position of the run and at its end. *)
Lemma star_chr_none {A : Type} (p : A -> bool) (run : list A) :
  forall n b a g (k : cont),
    forallb p run = true ->
    match a with [] => True | c :: _ => p c = false end ->
    length (run ++ a) <= n ->
    (forall r1 r2, run = r1 ++ r2 ->
                   k (MState (rev r1 ++ b) (r2 ++ a) g) = None) ->
    star_iter (m (Chr p)) n (MState b (run ++ a) g) k = None.
Proof.
  induction run as [|c run IH]; intros n b a g k Hp Ha Hn Hk.
  - pose proof (Hk [] [] eq_refl) as H0. cbn [rev app] in *.
    destruct n as [|n]; [exact H0|].
    rewrite star_iter_S. destruct a as [|c a].
    + rewrite m_chr_nil. exact H0.
    + rewrite m_chr_cons, Ha. exact H0.
  - cbn [forallb] in Hp. apply andb_prop in Hp. destruct Hp as [Hc Hp].
    destruct n as [|n]; [simpl in Hn; lia|].
    rewrite star_iter_S. cbn [app]. rewrite m_chr_cons, Hc.
    assert (Hpr : progress (MState b (c :: run ++ a) g)
                           (MState (c :: b) (run ++ a) g) = true).
    { unfold progress. simpl. apply Nat.ltb_lt. lia. }
    rewrite Hpr. rewrite IH.
    + exact (Hk [] (c :: run) eq_refl).
    + exact Hp.
    + exact Ha.
    + simpl in Hn. lia.
    + intros r1 r2 E. specialize (Hk (c :: r1) r2).
      cbn [rev app] in Hk. rewrite <- app_assoc in Hk. apply Hk.
      rewrite E. reflexivity.
Qed.

Lemma lstrip_split (s : str) :
  exists run, s = run ++ lstrip s /\ forallb py_isspace run = true.
Proof.
  induction s as [|c s IH].
  - exists []. split; reflexivity.
  - cbn [lstrip]. destruct (py_isspace c) eqn:Hc.
    + destruct IH as [run [E Hr]]. exists (c :: run). split.
      * cbn [app]. rewrite <- E. reflexivity.
      * cbn [forallb]. rewrite Hc. exact Hr.
    + exists []. split; reflexivity.
Qed.

Lemma lstrip_head (s : str) :
  match lstrip s with [] => True | c :: _ => py_isspace c = false end.
Proof.
  induction s as [|c s IH]; [exact I|].
  cbn [lstrip]. destruct (py_isspace c) eqn:Hc; [exact IH|exact Hc].
Qed.

Lemma space_is_no_closer (c : ascii) :
  py_isspace c = true -> closer c = false.
Proof.
  intros H. unfold closer, is_char.
  destruct (Ascii.eqb_spec c "}") as [E|E]; [subst c; discriminate|].
  destruct (Ascii.eqb_spec c "]") as [E'|E']; [subst c; discriminate|].
  reflexivity.
Qed.

Lemma closer_is_no_space (c : ascii) :
  closer c = true -> py_isspace c = false.
Proof.
  intros H. destruct (py_isspace c) eqn:Hc; [|reflexivity].
  rewrite (space_is_no_closer c Hc) in H. discriminate.
Qed.

Lemma space_is_no_comma (c : ascii) :
  py_isspace c = true -> is_char "," c = false.
Proof.
  intros H. unfold is_char.
  destruct (Ascii.eqb_spec c ",") as [E|E]; [subst c; discriminate|].
  reflexivity.
Qed.

Lemma closer_is_no_comma (c : ascii) :
  closer c = true -> is_char "," c = false.
Proof.
  intros H. unfold is_char.
  destruct (Ascii.eqb_spec c ",") as [E|E]; [subst c; discriminate|].
  reflexivity.
Qed.

(** The trailing-comma pattern matches nowhere but on a comma followed,
    after optional white space, by a closing bracket. *)
Lemma trailing_comma_needs (bef aft : str) :
  trailing_comma_at aft = false -> exec trailing_comma_re bef aft = None.
Proof.
  intros H. unfold exec, trailing_comma_re. rewrite m_seq.
  destruct aft as [|c s]; [rewrite m_chr_nil; reflexivity|].
  rewrite m_chr_cons. cbn [trailing_comma_at] in H.
  destruct (is_char "," c); [|reflexivity].
  cbn [andb] in H. unfold closes in H.
  destruct (lstrip_split s) as [run [E Hrun]].
  pose proof (lstrip_head s) as Hhead.
  rewrite m_group, m_seq, m_star. cbn [rest].
  rewrite E.
  rewrite (star_chr_none py_isspace run); [reflexivity|exact Hrun|
    exact Hhead|apply Nat.le_refl|].
  intros r1 r2 Er. destruct r2 as [|d r2].
  - cbn [app]. destruct (lstrip s) as [|d a]; [apply m_chr_nil|].
    rewrite m_chr_cons. cbv beta. unfold closer in H. rewrite H.
    reflexivity.
  - cbn [app]. rewrite m_chr_cons.
    rewrite Er, forallb_app in Hrun. apply andb_prop in Hrun.
    destruct Hrun as [_ Hrun]. cbn [forallb] in Hrun.
    apply andb_prop in Hrun. destruct Hrun as [Hd _].
    pose proof (space_is_no_closer d Hd) as Hn.
    cbv beta. unfold closer in Hn. rewrite Hn. reflexivity.
Qed.

Lemma trailing_comma_match (bef run : str) (d : ascii) (tl : str) :
  forallb py_isspace run = true -> closer d = true ->
  exists sn,
    m trailing_comma_re
      (MState bef ((","%char :: run ++ [d]) ++ tl) []) Some
    = Some (MState sn tl [(1, run ++ [d])]).
Proof.
  intros Hrun Hd. eexists. unfold trailing_comma_re.
  cbn [app]. rewrite <- app_assoc. cbn [app].
  rewrite m_seq, m_chr_cons.
  change (is_char "," ",") with true. cbv iota.
  rewrite m_group, m_seq, m_star. cbn [rest].
  apply (star_chr_run py_isspace run);
    [exact Hrun|exact (closer_is_no_space d Hd)|apply Nat.le_refl|].
  rewrite m_chr_cons. cbv beta. unfold closer in Hd. rewrite Hd.
  unfold consumed. cbn [seen rest groups].
  replace (run ++ d :: tl) with ((run ++ [d]) ++ tl)
    by (rewrite <- app_assoc; reflexivity).
  rewrite firstn_app_length. reflexivity.
Qed.

Lemma drop_commas_run (run : str) (d : ascii) (tl : str) :
  forallb py_isspace run = true -> closer d = true ->
  drop_commas (run ++ d :: tl) = run ++ d :: drop_commas tl.
Proof.
  intros Hrun Hd. induction run as [|c run IH]; cbn [app drop_commas].
  - rewrite (closer_is_no_comma d Hd). reflexivity.
  - cbn [forallb] in Hrun. apply andb_prop in Hrun.
    destruct Hrun as [Hc Hrun].
    rewrite (space_is_no_comma c Hc), (IH Hrun). reflexivity.
Qed.

Lemma trailing_comma_pass :
  forall len x bef,
    length x <= len ->
    flat_map (fun p : ascii + mobj ascii =>
                match p with inl c => [c] | inr mo => group mo 1 end)
             (scan_from trailing_comma_re 0 bef x)
    = drop_commas x.
Proof.
  induction len as [|len IH]; intros x bef Hlen.
  - destruct x as [|c x]; [|simpl in Hlen; lia].
    cbn [scan_from]. rewrite trailing_comma_needs by reflexivity.
    reflexivity.
  - destruct x as [|c x].
    + cbn [scan_from]. rewrite trailing_comma_needs by reflexivity.
      reflexivity.
    + simpl in Hlen.
      destruct (trailing_comma_at (c :: x)) eqn:Hat.
      * cbn [trailing_comma_at] in Hat.
        apply andb_prop in Hat. destruct Hat as [Hc Hcl].
        cbn [drop_commas]. rewrite Hc, Hcl. cbn [andb].
        unfold is_char in Hc. apply Ascii.eqb_eq in Hc. subst c.
        unfold closes in Hcl.
        destruct (lstrip_split x) as [run [E Hrun]].
        destruct (lstrip x) as [|d tl]; [discriminate|].
        destruct (trailing_comma_match bef run d tl Hrun Hcl) as [sn Hm].
        assert (Ex : ","%char :: x = (","%char :: run ++ [d]) ++ tl).
        { rewrite E. cbn [app]. rewrite <- app_assoc. reflexivity. }
        assert (Hne : ","%char :: run ++ [d] <> []) by discriminate.
        rewrite Ex.
        rewrite (scan_match trailing_comma_re bef _ tl _ Hne Hm eq_refl).
        cbn [flat_map groups]. unfold group at 1.
        cbn [m_groups lookup_group Nat.eqb].
        rewrite IH.
        -- rewrite E, (drop_commas_run run d tl Hrun Hcl).
           rewrite <- app_assoc. reflexivity.
        -- rewrite E, length_app in Hlen. simpl in Hlen. lia.
      * cbn [scan_from]. rewrite trailing_comma_needs by exact Hat.
        cbn [flat_map app]. rewrite IH by lia.
        cbn [drop_commas]. cbn [trailing_comma_at] in Hat.
        rewrite Hat. reflexivity.
Qed.

Lemma drop_commas_none (x : str) :
  has_trailing_comma x = false -> drop_commas x = x.
Proof.
  induction x as [|c x IH]; intros H; [reflexivity|].
  cbn [has_trailing_comma] in H. apply orb_false_elim in H.
  destruct H as [Hat H]. cbn [trailing_comma_at] in Hat.
  cbn [drop_commas]. rewrite Hat, (IH H). reflexivity.
Qed.

(** One pass of the trailing-comma removal leaves out exactly the commas
    that are followed, after optional white space, by a closing bracket,
    whether inside a string literal or not, and keeps every other
    character; the three passes leave a text without such a comma as it
    is. *)
Theorem trailing_comma_removal (x : str) :
  strip_trailing_commas_once x = drop_commas x
  /\ strip_trailing_commas x = drop_commas (drop_commas (drop_commas x))
  /\ (has_trailing_comma x = false -> strip_trailing_commas x = x).
Proof.
  assert (H : forall y, strip_trailing_commas_once y = drop_commas y).
  { intros y. unfold strip_trailing_commas_once, sub, scan.
    apply (trailing_comma_pass (length y)). apply Nat.le_refl. }
  split; [apply H|]. split.
  - unfold strip_trailing_commas. rewrite !H. reflexivity.
  - intros Hx. unfold strip_trailing_commas. rewrite !H.
    rewrite !(drop_commas_none x Hx). reflexivity.
Qed.

(** A configuration text that is clean JSON (closed string literals, no
    slash outside them) and has no comma before a closing bracket goes
    through the cleaning unchanged: [json.loads] gets the text of the
    file. *)
Theorem strict_json_loaded_as_is (env : Env) (config_path : string)
        (content : str)
        (Hread : open_read env config_path = Ok content)
        (Hclean : clean_json false content = true)
        (Hcomma : has_trailing_comma content = false) :
  clean_config_text (placeholder_text env) content = content
  /\ load_config env config_path = json_loads env content.
Proof.
  assert (H : clean_config_text (placeholder_text env) content = content).
  { unfold clean_config_text.
    rewrite (strip_comments_clean _ content Hclean).
    unfold strip_trailing_commas.
    assert (Ho : strip_trailing_commas_once content = content).
    { unfold strip_trailing_commas_once, sub, scan.
      rewrite (trailing_comma_pass (length content) content []
                 (Nat.le_refl _)).
      apply drop_commas_none. exact Hcomma. }
    rewrite !Ho. reflexivity. }
  split; [exact H|].
  unfold load_config. rewrite Hread. cbn [bind]. rewrite H. reflexivity.
Qed.

Lemma strict_json_example :
  load_config (example_env lax_files) "tsconfig.json"
  = json_loads (example_env lax_files) lax_config_text.
Proof.
  exact (proj2 (strict_json_loaded_as_is (example_env lax_files)
                  "tsconfig.json" lax_config_text
                  eq_refl eq_refl eq_refl)).
Defined.

(* ================================================================== *)
(** ** The counts of the report *)
(* ================================================================== *)

Lemma counts_add_up (vs : list Violation) :
  Forall (fun v => severity (rule v) <> SUCCESS) vs ->
  count_severity ERROR vs + count_severity WARNING vs
  + count_severity INFO vs = length vs.
Proof.
  unfold count_severity.
  induction vs as [|v vs IH]; intros H; [reflexivity|].
  inversion H as [|x l Hv Hvs]. subst.
  specialize (IH Hvs). cbn [filter].
  destruct (severity (rule v)); cbn [Severity_eqb length];
    [lia|lia|lia|contradiction].
Qed.

Lemma extracted_rules_reported (env : Env) (doc : MDCDocument) :
  Forall (fun r => severity r <> SUCCESS) (extract_rules env doc).
Proof.
  assert (H : Forall well_formed_rule (extract_rules env doc)).
  { unfold extract_rules. apply Forall_app.
    split; [apply typescript_rules_well_formed|].
    apply Forall_app.
    split; [apply convex_rules_well_formed|apply example_rules_well_formed]. }
  revert H. apply Forall_impl. intros r Hr. apply Hr.
Qed.

(** The breakdown of the report loses no violation: for the rules
    extracted from a document, whatever the configuration file, the
    numbers of errors, warnings and infos add up to the number of
    violations, so every violation is listed under one of the three
    severities; and the file fails exactly when the number of errors is
    not zero. *)
Theorem report_accounts_for_violations (env : Env) (doc : MDCDocument)
        (config_path : string) (vs : list Violation) (ps : list Rule)
        (Hev : evaluate env (extract_rules env doc) config_path
               = Ok (vs, ps)) :
  count_severity ERROR vs + count_severity WARNING vs
  + count_severity INFO vs = length vs
  /\ Forall (fun v => In (severity (rule v)) [ERROR; WARNING; INFO]) vs
  /\ (report config_path vs ps = false <-> 0 < count_severity ERROR vs).
Proof.
  assert (Hs : Forall (fun v => severity (rule v) <> SUCCESS) vs).
  { destruct (load_config env config_path) as [config|e] eqn:Hload.
    - destruct (evaluate_ok_inv env _ config_path config vs ps Hload Hev)
        as [b [_ [Hvs _]]].
      apply Forall_forall. intros v Hin. rewrite Hvs in Hin.
      destruct (violations_of_fields env config config_path _ v Hin)
        as [Hr _].
      unfold kept_rules in Hr. apply filter_In in Hr.
      destruct Hr as [Hr _].
      pose proof (extracted_rules_reported env doc) as Hall.
      rewrite Forall_forall in Hall. apply Hall. exact Hr.
    - unfold evaluate in Hev. rewrite Hload in Hev.
      destruct e; inversion Hev; subst;
        repeat constructor; discriminate. }
  split; [apply counts_add_up; exact Hs|]. split.
  - revert Hs. apply Forall_impl. intros v Hv.
    destruct (severity (rule v)); cbn [In]; auto; contradiction.
  - unfold report.
    destruct (0 <? count_severity ERROR vs) eqn:He.
    + apply Nat.ltb_lt in He. split; [intros _; exact He|reflexivity].
    + apply Nat.ltb_ge in He.
      split; [|lia].
      destruct (0 <? count_severity WARNING vs); discriminate.
Qed.

Lemma report_counts_example :
  count_severity ERROR [parse_error_violation "missing.json"
                          (FileNotFoundError "No such file or directory")]
  + count_severity WARNING [parse_error_violation "missing.json"
                          (FileNotFoundError "No such file or directory")]
  + count_severity INFO [parse_error_violation "missing.json"
                          (FileNotFoundError "No such file or directory")]
  = 1.
Proof.
  exact (proj1 (report_accounts_for_violations (example_env lax_files)
                  strict_doc "missing.json" _ [] eq_refl)).
Defined.

(* ================================================================== *)
(** ** The verdict on a configuration *)
(* ================================================================== *)












(* ================================================================== *)
(** ** The document behind the front matter *)
(* ================================================================== *)

(** A rules file that opens with a front-matter block.  Its sections and
    code blocks are those of the text after the closing marker, so the
    block itself is never read as a heading or a code block; the rules
    extracted do not depend on what the front matter holds; and the only
    exception [parse] can end with is one of the YAML loader that is not
    a YAML error. *)
Theorem parse_after_front_matter (env : Env) (file_path : string)
        (fm body : str)
        (Hread : open_read env file_path
                 = Ok (fm_open ++ fm ++ fm_close ++ body))
        (Hfm : contains fm_close (fm ++ NL :: s2l "---") = false) :
  match parse env file_path with
  | Ok doc =>
      sections doc = parse_sections body
      /\ code_blocks doc = parse_code_blocks body
      /\ extract_rules env doc
         = extract_rules env
             (MkDoc (VDict []) (parse_sections body) (parse_code_blocks body))
  | Raise e =>
      yaml_safe_load env (quote_globs fm) = Raise e
      /\ forall msg, e <> YAMLError msg
  end.
Proof.
  unfold parse. rewrite Hread. cbn [bind].
  unfold parse_frontmatter. rewrite (frontmatter_match fm body Hfm).
  cbn [group m_groups lookup_group Nat.eqb m_after].
  destruct (yaml_safe_load env (quote_globs fm)) as [front|e] eqn:Hy.
  - cbn [bind sections code_blocks]. repeat split.
  - destruct e; cbn [bind sections code_blocks];
      try (repeat split; fail);
      (split; [reflexivity|intros msg0; discriminate]).
Qed.

Lemma parse_after_front_matter_example :
  match parse (example_env rules_files) "convex_rules.mdc" with
  | Ok doc =>
      sections doc = parse_sections rules_file_body
      /\ code_blocks doc = parse_code_blocks rules_file_body
      /\ extract_rules (example_env rules_files) doc
         = extract_rules (example_env rules_files)
             (MkDoc (VDict []) (parse_sections rules_file_body)
                    (parse_code_blocks rules_file_body))
  | Raise e =>
      yaml_safe_load (example_env rules_files)
        (quote_globs (txt "description: Rules~globs: **/*.ts")) = Raise e
      /\ forall msg, e <> YAMLError msg
  end.
Proof.
  exact (parse_after_front_matter (example_env rules_files)
           "convex_rules.mdc" (txt "description: Rules~globs: **/*.ts")
           rules_file_body eq_refl eq_refl).
Defined.
